(** * The arcade games of [arcade.py] and [hangman.py]

    A shallow embedding of the turn-based games (hangman, rock-scissor-paper
    and blackjack) together with the [GameState] protocol they share, and the
    properties of their transition functions.

    Python values are modelled as follows.
    - [str] is the list of the Unicode code points of the text.
    - [int] is [Z].
    - a [set] object lives in a heap of sets and is referred to by its
      location, so that two references to one object can be told apart from
      two equal sets;
    - the lists of cards of a blackjack game are Rocq lists in Python order
      (index 0 first); the single deck that both hands refer to is one field
      of the game record.
    - exceptions are the [Raise] results of the [Exc] type. *)

From Stdlib Require Import ZArith NArith Ascii String DecimalString.
From stdpp Require Import gmap list fin_maps.

Local Open Scope Z_scope.

(** ** Text *)

(** A Python [str]: its code points. *)
Definition str : Type := list N.

(** Decoding of the source's string literals, which this file writes as
    UTF-8 text: one- and two-byte sequences cover every literal of the two
    programs (ASCII and the Swedish letters). *)
Fixpoint utf8_decode (bs : list N) : str :=
  match bs with
  | [] => []
  | b0 :: rest =>
      if (b0 <? 192)%N then b0 :: utf8_decode rest
      else
        match rest with
        | [] => [b0]
        | b1 :: rest' =>
            N.lor (N.shiftl (N.land b0 31) 6) (N.land b1 63) :: utf8_decode rest'
        end
  end.

Definition py (s : string) : str :=
  utf8_decode (map N_of_ascii (list_ascii_of_string s)).
Arguments py : simpl never.

(** [str(n)] for an [int]. *)
Definition str_of_int (n : Z) : str :=
  map N_of_ascii (list_ascii_of_string (NilZero.string_of_int (Z.to_int n))).

(** [sep.join(parts)] *)
Fixpoint join (sep : str) (parts : list str) : str :=
  match parts with
  | [] => []
  | [p] => p
  | p :: rest => p ++ sep ++ join sep rest
  end.

(** ** Exceptions, the world and the monad of effects *)

Inductive exn : Type :=
| ValueError      (* unpacking an empty string *)
| IndexError      (* pop from an empty list, choice from an empty list *)
| EOFError        (* input() at the end of the input *)
| DanglingRef     (* a location without an object: no Python program gets here *)
| OutOfFuel.      (* a loop of the model ran out of fuel *)

Inductive Exc (A : Type) : Type :=
| Ok (a : A)
| Raise (e : exn).
Arguments Ok {A} a.
Arguments Raise {A} e.

Definition Exc_bind {A B} (c : Exc A) (k : A -> Exc B) : Exc B :=
  match c with
  | Ok a => k a
  | Raise e => Raise e
  end.

Abbreviation loc := nat.

(** The world the program runs in: the heap of [set] objects, the lines
    written by [print], and the random source. The random source is a fixed
    sequence of raw draws [rng] of which [rpos] have been consumed. *)
Record World : Type := mkWorld {
  heap : gmap nat (gset N);
  stdout : list str;
  rng : nat -> nat;
  rpos : nat
}.

Definition M (A : Type) : Type := World -> Exc (A * World).

Definition ret {A} (a : A) : M A := fun w => Ok (a, w).

Definition bind {A B} (c : M A) (k : A -> M B) : M B :=
  fun w =>
    match c w with
    | Ok (a, w') => k a w'
    | Raise e => Raise e
    end.

Definition raise {A} (e : exn) : M A := fun _ => Raise e.

Definition lift {A} (c : Exc A) : M A :=
  fun w =>
    match c with
    | Ok a => Ok (a, w)
    | Raise e => Raise e
    end.

Declare Scope py_scope.
Delimit Scope py_scope with py_m.
Notation "x <- c ;; k" := (bind c (fun x => k))
  (at level 100, c at next level, right associativity) : py_scope.
Notation "c ;;; k" := (bind c (fun _ => k))
  (at level 100, right associativity) : py_scope.
Notation "x <-! c ;; k" := (Exc_bind c (fun x => k))
  (at level 100, c at next level, right associativity) : py_scope.
Local Open Scope py_scope.

(** [print(line)] *)
Definition print (line : str) : M unit :=
  fun w => Ok (tt, mkWorld (heap w) (stdout w ++ [line]) (rng w) (rpos w)).

(** Reading the set object at a location. *)
Definition deref (l : loc) : M (gset N) :=
  fun w =>
    match heap w !! l with
    | Some s => Ok (s, w)
    | None => Raise DanglingRef
    end.

(** A new set object, at a location that holds no object yet. *)
Definition alloc (s : gset N) : M loc :=
  fun w =>
    let l := fresh (dom (heap w)) in
    Ok (l, mkWorld (<[l := s]> (heap w)) (stdout w) (rng w) (rpos w)).

(** [random]: a draw below [n] takes the next raw draw modulo [n]. *)
Definition randbelow (n : nat) : M nat :=
  fun w => Ok ((rng w (rpos w) mod n)%nat,
               mkWorld (heap w) (stdout w) (rng w) (S (rpos w))).

(** [random.randint(a, b)]: uniform in [a .. b], both ends included. *)
Definition randint (a b : Z) : M Z :=
  r <- randbelow (Z.to_nat (b - a + 1)) ;; ret (a + Z.of_nat r).

(** [random.choice(seq)] *)
Definition choice {A} (seq : list A) : M A :=
  match seq with
  | [] => raise IndexError
  | _ => i <- randbelow (length seq) ;;
         match seq !! i with
         | Some x => ret x
         | None => raise IndexError
         end
  end.

(** [x[i], x[j] = x[j], x[i]] *)
Definition swap {A} (i j : nat) (x : list A) : list A :=
  match x !! i, x !! j with
  | Some xi, Some xj => <[j := xi]> (<[i := xj]> x)
  | _, _ => x
  end.

(** [random.shuffle(x)]: for [i] from [len(x) - 1] down to [1], swap [x[i]]
    with [x[j]] for a draw [j] below [i + 1]. [shuffle_from i] runs the
    iterations [i, i - 1, ..., 1]. *)
Fixpoint shuffle_from {A} (i : nat) (x : list A) : M (list A) :=
  match i with
  | O => ret x
  | S i' => j <- randbelow (S i) ;; shuffle_from i' (swap i j x)
  end.

Definition shuffle {A} (x : list A) : M (list A) :=
  shuffle_from (length x - 1) x.

(** [l.pop()]: removes and returns the last element. *)
Definition pop {A} (l : list A) : Exc (A * list A) :=
  match reverse l with
  | [] => Raise IndexError
  | x :: r => Ok (x, reverse r)
  end.

(** [l[i]], with Python's negative indices. *)
Definition getitem {A} (l : list A) (i : Z) : Exc A :=
  let n := Z.of_nat (length l) in
  let k := if i <? 0 then i + n else i in
  if (0 <=? k) && (k <? n)
  then match l !! Z.to_nat k with
       | Some x => Ok x
       | None => Raise IndexError
       end
  else Raise IndexError.

(** [l.index(x)] *)
Fixpoint index (x : str) (l : list str) : Exc Z :=
  match l with
  | [] => Raise ValueError
  | y :: l' =>
      if decide (x = y) then Ok 0
      else i <-! index x l' ;; Ok (1 + i)
  end.

(** ** The states of the games *)

(** A round of hangman. [guessed] refers to a set object of the heap. *)
Record Hangman : Type := mkHangman {
  guessesLeft : Z;
  word : str;
  guessed : loc
}.

Record BlackjackCard : Type := mkBlackjackCard {
  label : str;
  value : Z
}.

(** A blackjack game. Its two [BlackjackHand] objects refer to one and the
    same [BlackjackDeck] object: [deck] is the [cards] list of that deck,
    [bankHand] and [playerHand] are the [cards] lists of the two hands. *)
Record Blackjack : Type := mkBlackjack {
  deck : list BlackjackCard;
  bankHand : list BlackjackCard;
  playerHand : list BlackjackCard
}.

(** The subclasses of [GameState] that the games use. *)
Inductive GameState : Type :=
| FinishedGame (message : str)
| HangmanGame (h : Hangman)
| RockScissorPaper
| BlackjackGame (b : Blackjack).

(** [done], inherited from [GameState] by [FinishedGame] and overridden by
    the games. *)
Definition done (game : GameState) : bool :=
  match game with
  | FinishedGame _ => true
  | _ => false
  end.

(** [info], overridden by [FinishedGame] only. *)
Definition info (game : GameState) : str :=
  match game with
  | FinishedGame message => message
  | _ => []
  end.

Definition FinishedGame_next (self : GameState) (answer : str) : GameState :=
  self.

(** ** Rock, scissor, paper *)

Definition alternatives : list str := [py "sten"; py "sax"; py "påse"].
Definition winsOver : list Z := [1; 2; 0].

Definition RockScissorPaper_next (answer : str) : M GameState :=
  if bool_decide (answer ∉ alternatives) then ret RockScissorPaper
  else
    userChoiceIndex <- lift (index answer alternatives) ;;
    computerChoiceIndex <- randint 0 (Z.of_nat (length alternatives) - 1) ;;
    computerChoice <- lift (getitem alternatives computerChoiceIndex) ;;
    if bool_decide (computerChoiceIndex = userChoiceIndex)
    then ret (FinishedGame (py "Oavgjort"))
    else
      beaten <- lift (getitem winsOver userChoiceIndex) ;;
      if bool_decide (beaten = computerChoiceIndex)
      then ret (FinishedGame (py "Du vann mot " ++ computerChoice))
      else ret (FinishedGame (py "Du förlorar mot " ++ computerChoice)).

(** ** Blackjack *)

Definition cardColor : list str :=
  [py "Spader"; py "Hjärter"; py "Ruter"; py "Klöver"].
Definition cardName : list str :=
  [py "Ess"; py "Två"; py "Tre"; py "Fyra"; py "Fem"; py "Sex"; py "Sju";
   py "Åtta"; py "Nio"; py "Tio"; py "Knekt"; py "Dam"; py "Kung"].
Definition cardValue : list Z := [11; 2; 3; 4; 5; 6; 7; 8; 9; 10; 10; 10; 10].

(** The card that the comprehension of [BlackjackDeck.__init__] builds for
    [i]. The indices [i % 4] and [i % 13] are always in range, so the
    defaults of [nth] are never returned. *)
Definition card_of (i : nat) : BlackjackCard :=
  mkBlackjackCard
    (nth (i mod 4) cardColor [] ++ py " " ++ nth (i mod 13) cardName [])
    (nth (i mod 13) cardValue 0).

(** [BlackjackDeck.__init__]: the cards for [i] in [range(1, 52)],
    shuffled. *)
Definition BlackjackDeck_init : M (list BlackjackCard) :=
  shuffle (map card_of (seq 1 51)).

Definition drawCard (cards : list BlackjackCard)
  : Exc (BlackjackCard * list BlackjackCard) :=
  pop cards.

(** [BlackjackHand.takeCard], on the deck and the hand's cards. *)
Definition takeCard (dh : list BlackjackCard * list BlackjackCard)
  : Exc (list BlackjackCard * list BlackjackCard) :=
  d <-! drawCard (fst dh) ;; Ok (snd d, snd dh ++ [fst d]).

(** [BlackjackHand.value] *)
Definition Hand_value (cards : list BlackjackCard) : Z :=
  fold_left (fun a c => a + value c) cards 0.

(** [BlackjackHand.takeCardsUntilValue]: the [while] loop, with one unit of
    fuel for each iteration. *)
Fixpoint takeCardsUntilValue_loop (fuel : nat) (v : Z)
    (dh : list BlackjackCard * list BlackjackCard)
  : Exc (list BlackjackCard * list BlackjackCard) :=
  if bool_decide (Hand_value (snd dh) < v) then
    match fuel with
    | O => Raise OutOfFuel
    | S fuel' => dh' <-! takeCard dh ;; takeCardsUntilValue_loop fuel' v dh'
    end
  else Ok dh.

(** Every iteration draws a card, so the loop ends (or raises) within
    [len(deck) + 1] iterations. *)
Definition takeCardsUntilValue (v : Z)
    (dh : list BlackjackCard * list BlackjackCard)
  : Exc (list BlackjackCard * list BlackjackCard) :=
  takeCardsUntilValue_loop (S (length (fst dh))) v dh.

(** [Blackjack.__init__]: a new deck, two cards for the bank, then two for
    the player. *)
Definition Blackjack_init : M Blackjack :=
  deck0 <- BlackjackDeck_init ;;
  lift (b1 <-! takeCard (deck0, []) ;;
        b2 <-! takeCard b1 ;;
        p1 <-! takeCard (fst b2, []) ;;
        p2 <-! takeCard p1 ;;
        Ok (mkBlackjack (fst p2) (snd b2) (snd p2))).

Definition nl : str := [10%N].
Definition spaces (n : nat) : str := replicate n 32%N.

Definition playerWon (bankValue playerValue : Z) : bool :=
  (bool_decide (playerValue > bankValue) && bool_decide (playerValue <= 21))
  || bool_decide (bankValue > 21).

Definition verdict (won : bool) : str :=
  if won then py "Du vann" else py "Banken vann".

(** [Blackjack.end] *)
Definition Blackjack_end (self : Blackjack) : GameState :=
  let bankValue := Hand_value (bankHand self) in
  let playerValue := Hand_value (playerHand self) in
  FinishedGame
    (nl ++ spaces 12 ++ py "Bankens hand: "
        ++ join (py ", ") (map label (bankHand self))
        ++ py ", totalt värde " ++ str_of_int bankValue
     ++ nl ++ spaces 12 ++ py "Din hand: "
        ++ join (py ", ") (map label (playerHand self))
        ++ py ", totalt värde " ++ str_of_int playerValue
     ++ nl ++ nl ++ spaces 12 ++ verdict (playerWon bankValue playerValue)
     ++ nl ++ spaces 28).

(** [Blackjack.next]. The method changes the game object through its hands;
    the result is the object after the call together with the returned
    state. *)
Definition Blackjack_next (self : Blackjack) (answer : str)
  : Exc (Blackjack * GameState) :=
  if bool_decide (answer = py "stand") then
    dh <-! takeCardsUntilValue 17 (deck self, bankHand self) ;;
    let self' := mkBlackjack (fst dh) (snd dh) (playerHand self) in
    Ok (self', Blackjack_end self')
  else if bool_decide (answer = py "hit") then
    dh <-! takeCard (deck self, playerHand self) ;;
    let self' := mkBlackjack (fst dh) (bankHand self) (snd dh) in
    if bool_decide (Hand_value (playerHand self') > 21)
    then Ok (self', Blackjack_end self')
    else Ok (self', BlackjackGame self')
  else Ok (self, BlackjackGame self).

(** ** Hangman, and the protocol of the game loop *)

(** The set object that the default value [set()] of the parameter [guessed]
    of [Hangman.__init__] evaluates to. Python evaluates a default value
    once, when the function is defined. *)
Definition Hangman_default_guessed : loc := 0%nat.

(** The world after the class definitions have been executed. *)
Definition World_init (rng : nat -> nat) : World :=
  mkWorld {[ Hangman_default_guessed := ∅ ]} [] rng 0.

(** [Hangman.__init__]; [None] for [guessed] is a call without it. *)
Definition Hangman_init (guessesLeft : Z) (word : str) (guessed : option loc)
  : Hangman :=
  mkHangman guessesLeft word (default Hangman_default_guessed guessed).

(** [Hangman.create] *)
Definition Hangman_create (guessesLeft : Z) (words : list str) : M Hangman :=
  word <- choice words ;; ret (Hangman_init guessesLeft word None).

Section Games.

(** [str.lower] *)
Variable lower : str -> str.

(** The locals [correctGuess], [gl] and [foundWord] of [Hangman.next]. *)
Definition correctGuess (self : Hangman) (guessedChar : N) : bool :=
  bool_decide (guessedChar ∈ lower (word self)).

Definition gl (self : Hangman) (old : gset N) (guessedChar : N) : Z :=
  if bool_decide (guessedChar ∈ old) || correctGuess self guessedChar
  then guessesLeft self
  else guessesLeft self - 1.

Definition foundWord (self : Hangman) (g : gset N) : bool :=
  bool_decide (list_to_set (lower (word self)) ⊆ g).

(** [Hangman.next] *)
Definition Hangman_next (self : Hangman) (answer : str) : M GameState :=
  match lower answer with
  | [] => raise ValueError
  | guessedChar :: _ =>
      print (py "Du gissage "
             ++ (if correctGuess self guessedChar then py "rätt :)" else py "fel")) ;;;
      old <- deref (guessed self) ;;
      g <- alloc (old ∪ {[ guessedChar ]}) ;;
      gs <- deref g ;;
      ret (if foundWord self gs
           then FinishedGame (py "Du hittade ordet " ++ word self)
           else if bool_decide (gl self old guessedChar < 1)
                then FinishedGame (py "Du hittade inte ordet " ++ word self)
                else HangmanGame
                       (Hangman_init (gl self old guessedChar) (word self) (Some g)))
  end.

(** The world after a call of [Hangman.next] that guessed [c]. *)
Definition world_after_guess (self : Hangman) (G : gset N) (c : N) (w : World)
  : World :=
  mkWorld (<[ fresh (dom (heap w)) := G ∪ {[ c ]} ]> (heap w))
          (stdout w
           ++ [py "Du gissage "
               ++ (if correctGuess self c then py "rätt :)" else py "fel")])
          (rng w) (rpos w).

(** [next], by the class of the state. *)
Definition next (game : GameState) (answer : str) : M GameState :=
  match game with
  | FinishedGame _ => ret (FinishedGame_next game answer)
  | HangmanGame h => Hangman_next h answer
  | RockScissorPaper => RockScissorPaper_next answer
  | BlackjackGame b => r <- lift (Blackjack_next b answer) ;; ret (snd r)
  end.

(** [GameState.run], on the lines that [input] returns. *)
Fixpoint run (game : GameState) (inputs : list str) : M GameState :=
  if done game then ret game
  else
    match inputs with
    | [] => raise EOFError
    | answer :: inputs' =>
        match answer with
        | [] => run game inputs'
        | _ =>
            game' <- next game answer ;;
            (if bool_decide (info game' = []) then ret tt else print (info game')) ;;;
            run game' inputs'
        end
    end.

End Games.

(** [str.lower] on the letters of Latin-1, for running the model. *)
Definition lower_latin1_char (c : N) : N :=
  if ((65 <=? c) && (c <=? 90) || (192 <=? c) && (c <=? 222) && negb (c =? 215))%N
  then (c + 32)%N else c.

Definition lower_latin1 (s : str) : str := map lower_latin1_char s.

(** ** Drivers and reachable states, for stating the properties *)

(** [next] applied to each of a sequence of answers in turn. *)
Fixpoint next_all (lower : str -> str) (game : GameState) (answers : list str)
  : M GameState :=
  match answers with
  | [] => ret game
  | answer :: answers' => game' <- next lower game answer ;; next_all lower game' answers'
  end.

(** The game loop on a blackjack game, keeping the game object: the loop of
    [run] on the lines read so far, with the object as [Blackjack_next]
    left it. *)
Fixpoint Blackjack_play (self : Blackjack) (inputs : list str)
  : Exc (Blackjack * GameState) :=
  match inputs with
  | [] => Ok (self, BlackjackGame self)
  | answer :: inputs' =>
      match answer with
      | [] => Blackjack_play self inputs'
      | _ =>
          r <-! Blackjack_next self answer ;;
          if done (snd r) then Ok r else Blackjack_play (fst r) inputs'
      end
  end.

(** The blackjack games that a session can be in: a new game, and a game
    that [next] returned as the state to go on with. *)
Inductive Blackjack_reachable : Blackjack -> Prop :=
| reachable_init w self w' :
    Blackjack_init w = Ok (self, w') -> Blackjack_reachable self
| reachable_next self answer self' :
    Blackjack_reachable self ->
    Blackjack_next self answer = Ok (self', BlackjackGame self') ->
    Blackjack_reachable self'.

(** The cards that [BlackjackDeck.__init__] shuffles. *)
Definition unshuffled : list BlackjackCard := map card_of (seq 1 51).

(** What holds of a game in play: the deck and the hands together are the
    cards of the new deck, the bank holds its two cards, and the player has
    not gone over 21 unless with the two cards dealt. *)
Definition Blackjack_inv (self : Blackjack) : Prop :=
  deck self ++ bankHand self ++ playerHand self ≡ₚ unshuffled
  /\ length (bankHand self) = 2%nat
  /\ (Hand_value (playerHand self) <= 21 \/ length (playerHand self) = 2%nat).

(** Two games share no set object. *)
Definition own_guessed_set (h1 h2 : Hangman) : Prop :=
  guessed h1 <> guessed h2.

(** A computation keeps the set objects it found: every location that held
    a set holds the same set afterwards. *)
Definition keeps_sets {A} (c : M A) : Prop :=
  forall w a w', c w = Ok (a, w') ->
    forall l S, heap w !! l = Some S -> heap w' !! l = Some S.

(** Every card of the list is worth 2 at least. *)
Definition from_2 (l : list BlackjackCard) : Prop :=
  Forall (fun c => 2 <= value c) l.

(** A game for trying a "hit" that goes over 21. *)
Definition scored_game : Blackjack :=
  mkBlackjack [card_of 5; card_of 13] [card_of 9; card_of 10]
              [card_of 11; card_of 12].

(** The first game of the random source that always draws 0. *)
Definition first_game : Blackjack :=
  match Blackjack_init (World_init (fun _ => 0%nat)) with
  | Ok (self, _) => self
  | Raise _ => mkBlackjack [] [] []
  end.

(** ** Text helpers, prompts, the menu and the main programs *)

(** [pluralize(n, singular, *plurals)] *)
Definition pluralize (n : Z) (singular : str) (plurals : list str) : Exc str :=
  let v := singular :: plurals in
  if bool_decide (n >= 1) && bool_decide (n <= Z.of_nat (length v))
  then getitem v (n - 1)
  else getitem v (-1).

(** [naturalchoice(alternatives, sep)]; [alternatives[:-1]] is the list
    without its last element, and the empty list for the empty list. *)
Definition naturalchoice (alternatives : list str) (sep : str) : Exc str :=
  last <-! getitem alternatives (-1) ;;
  let upToLast := take (length alternatives - 1) alternatives in
  Ok (join (py ", ") upToLast ++ sep ++ last).

(** [RockScissorPaper.prompt] *)
Definition RockScissorPaper_prompt : Exc str :=
  choices <-! naturalchoice alternatives (py " eller ") ;;
  Ok (py "Välj något av " ++ choices ++ py ": ").

(** [Blackjack.prompt] *)
Definition Blackjack_prompt (self : Blackjack) : Exc str :=
  shown <-! getitem (bankHand self) 0 ;;
  Ok (nl ++ spaces 12 ++ py "Bankens hand: (Dolt kort), " ++ label shown
      ++ nl ++ spaces 12 ++ py "Din hand: "
         ++ join (py ", ") (map label (playerHand self))
         ++ py ", totalt värde " ++ str_of_int (Hand_value (playerHand self))
      ++ nl ++ spaces 12 ++ py "Ditt val (hit eller stand): ").

(** [Menu.prompt] *)
Definition Menu_prompt : str :=
  nl ++ spaces 12 ++ py "Vad vill du spela?"
  ++ nl ++ spaces 12 ++ py "(1) Blackjack"
  ++ nl ++ spaces 12 ++ py "(2) Hänga gubbe"
  ++ nl ++ spaces 12 ++ py "(3) Sten, sax, påse"
  ++ nl ++ spaces 12 ++ py "(x) Avsluta"
  ++ nl ++ spaces 12 ++ py "? ".

(** The words of the two main programs. *)
Definition words : list str :=
  [py "Apa"; py "Björn"; py "Cikada"; py "Dvärghamster"; py "Elefant";
   py "Flodhäst"; py "Giraff"].

(** The values of the variable [game] in the loop of [Menu().run()]: the
    menu itself, or a state of another class that [Menu.next] returned. *)
Inductive Arcade : Type :=
| Menu
| NotMenu (game : GameState).

Section Programs.

Variable lower : str -> str.

(** [s in self.guessed] for a text [s]: the set holds single characters. *)
Definition in_guessed (s : str) (g : gset N) : bool :=
  match s with
  | [x] => bool_decide (x ∈ g)
  | _ => false
  end.

(** Lowering the text [l] gives [l'], position by position the one character
    that lowering each character of [l] alone gives. *)
Definition lowers_pointwise (l l' : str) : Prop :=
  Forall2 (fun c x => lower [c] = [x]) l l'.

(** [Hangman.maskedWord] *)
Definition maskedWord (self : Hangman) : M str :=
  g <- deref (guessed self) ;;
  ret (concat (map (fun c => if in_guessed (lower [c]) g then [c] else py "_")
                   (word self))).

(** [Hangman.prompt] *)
Definition Hangman_prompt (self : Hangman) : M str :=
  masked <- maskedWord self ;;
  plural <- lift (pluralize (guessesLeft self) (py "gissning") [py "gissningar"]) ;;
  ret (py "Gissa en bokstav i ordet (" ++ masked ++ py ") ("
       ++ str_of_int (guessesLeft self) ++ py " " ++ plural ++ py " kvar)? ").

(** [prompt], by the class of the state; [FinishedGame] inherits the empty
    prompt of [GameState]. *)
Definition prompt (game : GameState) : M str :=
  match game with
  | FinishedGame _ => ret []
  | HangmanGame h => Hangman_prompt h
  | RockScissorPaper => lift RockScissorPaper_prompt
  | BlackjackGame b => lift (Blackjack_prompt b)
  end.

(** [GameState.run] with the prompt evaluated before each line is read, on
    the lines that [input] still has to return; the result holds the lines
    left for the caller. The text of the prompt goes to the terminal with
    [input] and is not among the lines of [print]. *)
Fixpoint run_io (game : GameState) (inputs : list str)
  : M (GameState * list str) :=
  if done game then ret (game, inputs)
  else
    _ <- prompt game ;;
    match inputs with
    | [] => raise EOFError
    | answer :: inputs' =>
        match answer with
        | [] => run_io game inputs'
        | _ =>
            game' <- next lower game answer ;;
            (if bool_decide (info game' = []) then ret tt else print (info game')) ;;;
            run_io game' inputs'
        end
    end.

(** [Menu.next]; the games it runs read their lines from the same input. *)
Definition Menu_next (answer : str) (inputs : list str)
  : M (Arcade * list str) :=
  print answer ;;;
  inputs1 <- (if bool_decide (answer = py "1")
              then b <- Blackjack_init ;;
                   r <- run_io (BlackjackGame b) inputs ;; ret (snd r)
              else ret inputs) ;;
  inputs2 <- (if bool_decide (answer = py "2")
              then h <- Hangman_create 5 words ;;
                   r <- run_io (HangmanGame h) inputs1 ;; ret (snd r)
              else ret inputs1) ;;
  inputs3 <- (if bool_decide (answer = py "3")
              then r <- run_io RockScissorPaper inputs2 ;; ret (snd r)
              else ret inputs2) ;;
  if bool_decide (answer = py "x")
  then ret (NotMenu (FinishedGame []), inputs3)
  else ret (Menu, inputs3).

(** [GameState.run] on the menu, with one unit of fuel for each iteration;
    the menu is not done and has no message. *)
Fixpoint Menu_run_loop (fuel : nat) (inputs : list str)
  : M (GameState * list str) :=
  match fuel with
  | O => raise OutOfFuel
  | S fuel' =>
      match inputs with
      | [] => raise EOFError
      | answer :: inputs' =>
          match answer with
          | [] => Menu_run_loop fuel' inputs'
          | _ =>
              r <- Menu_next answer inputs' ;;
              match fst r with
              | Menu => Menu_run_loop fuel' (snd r)
              | NotMenu game =>
                  (if bool_decide (info game = []) then ret tt
                   else print (info game)) ;;;
                  run_io game (snd r)
              end
          end
      end
  end.

(** The main program of [arcade.py], [Menu().run()]: every iteration reads a
    line, so the loop ends (or raises) within [len(inputs) + 1]
    iterations. *)
Definition arcade_main (inputs : list str) : M (GameState * list str) :=
  Menu_run_loop (S (length inputs)) inputs.

(** The main program of [hangman.py]. *)
Definition hangman_main (inputs : list str) : M (GameState * list str) :=
  h <- Hangman_create 5 words ;; run_io (HangmanGame h) inputs.

End Programs.

(** A state that the game loop can go on from in a world: the set of a
    hangman game is in the heap, a blackjack game is in play. *)
Definition playable (game : GameState) (w : World) : Prop :=
  match game with
  | FinishedGame _ => True
  | HangmanGame h => is_Some (heap w !! guessed h)
  | RockScissorPaper => True
  | BlackjackGame b => Blackjack_inv b
  end.

(** A computation returned with a result and a world that [P] holds of, or
    raised the end of the input. *)
Definition returns_or_EOF {A} (P : A -> World -> Prop) (r : Exc (A * World))
  : Prop :=
  match r with
  | Ok (a, w') => P a w'
  | Raise e => e = EOFError
  end.

(** Every set object of [w] is in [w'] as it was. *)
Definition heap_kept (w w' : World) : Prop :=
  forall l S, heap w !! l = Some S -> heap w' !! l = Some S.

(** The world after [print(line)]. *)
Definition printed (line : str) (w : World) : World :=
  mkWorld (heap w) (stdout w ++ [line]) (rng w) (rpos w).

(** The two messages that end a game of hangman. *)
Definition found_message (word : str) : str := py "Du hittade ordet " ++ word.
Definition not_found_message (word : str) : str :=
  py "Du hittade inte ordet " ++ word.

(** * Properties *)

(** One step of a computation in [Exc] on the fields of a game. *)
Ltac exc_step :=
  cbn [Exc_bind fst snd deck bankHand playerHand] in *.

Example py_literal : py "påse" = [112; 229; 115; 101]%N.
Proof. reflexivity. Qed.

(** ** The finished game *)

(** C6: a finished game is complete, [next] returns it as it is, and so
    after any answers the state is the same finished game, still complete
    and with the same message, in an unchanged world. *)
Theorem FinishedGame_absorbing (lower : str -> str) (message : str)
    (answers : list str) (w : World) :
  done (FinishedGame message) = true
  /\ info (FinishedGame message) = message
  /\ (forall answer : str,
        FinishedGame_next (FinishedGame message) answer = FinishedGame message)
  /\ next_all lower (FinishedGame message) answers w = Ok (FinishedGame message, w)
  /\ run lower (FinishedGame message) answers w = Ok (FinishedGame message, w).
Proof.
  repeat split.
  - induction answers as [|answer answers IH]; [reflexivity|].
    cbn [next_all]. unfold bind. cbn. exact IH.
  - by destruct answers.
Qed.

(** ** Rock, scissor, paper *)

Lemma randint_draw (a b : Z) (w : World) :
  randint a b w
  = Ok (a + Z.of_nat (rng w (rpos w) mod Z.to_nat (b - a + 1)),
        mkWorld (heap w) (stdout w) (rng w) (S (rpos w))).
Proof. reflexivity. Qed.

Lemma alternatives_cases (answer : str) :
  answer ∈ alternatives ->
  answer = py "sten" \/ answer = py "sax" \/ answer = py "påse".
Proof.
  unfold alternatives. rewrite !elem_of_cons, elem_of_nil. tauto.
Qed.

(** C9: an answer that is not an alternative leaves the state as it is, and
    the state has no message. For an alternative at index [u] the computer's
    index [c] is the next random draw: equal indices finish the game as a
    draw, [winsOver[u] = c] as a win and anything else as a loss, the last
    two with a message that ends with the computer's alternative. *)
Theorem RockScissorPaper_next_outcome (answer : str) (w : World) :
  let c := (rng w (rpos w) mod 3)%nat in
  let w' := mkWorld (heap w) (stdout w) (rng w) (S (rpos w)) in
  ((answer ∉ alternatives)
   /\ RockScissorPaper_next answer w = Ok (RockScissorPaper, w)
   /\ done RockScissorPaper = false
   /\ info RockScissorPaper = [])
  \/ (exists (u : nat) (computerChoice : str) (beaten : Z),
        alternatives !! u = Some answer
        /\ alternatives !! c = Some computerChoice
        /\ winsOver !! u = Some beaten
        /\ RockScissorPaper_next answer w
           = Ok (FinishedGame
                   (if decide (c = u) then py "Oavgjort"
                    else if decide (beaten = Z.of_nat c)
                         then py "Du vann mot " ++ computerChoice
                         else py "Du förlorar mot " ++ computerChoice),
                 w')).
Proof.
  intros c w'.
  destruct (decide (answer ∈ alternatives)) as [Hin|Hnot].
  - right.
    assert (Hc : (c < 3)%nat) by (apply Nat.mod_upper_bound; lia).
    assert (Hnext : forall u, index answer alternatives = Ok u ->
              RockScissorPaper_next answer w
              = (computerChoice <- lift (getitem alternatives (Z.of_nat c)) ;;
                 if bool_decide (Z.of_nat c = u)
                 then ret (FinishedGame (py "Oavgjort"))
                 else
                   beaten <- lift (getitem winsOver u) ;;
                   if bool_decide (beaten = Z.of_nat c)
                   then ret (FinishedGame (py "Du vann mot " ++ computerChoice))
                   else ret (FinishedGame (py "Du förlorar mot " ++ computerChoice)))
                  w').
    { intros u Hu. unfold RockScissorPaper_next.
      rewrite bool_decide_eq_false_2 by (intros Hn; exact (Hn Hin)).
      unfold bind at 1. unfold lift at 1. rewrite Hu.
      unfold bind at 1. rewrite randint_draw. reflexivity. }
    clearbody c.
    destruct (alternatives_cases answer Hin) as [->|[->| ->]];
      [ rewrite (Hnext 0 eq_refl); exists 0%nat
      | rewrite (Hnext 1 eq_refl); exists 1%nat
      | rewrite (Hnext 2 eq_refl); exists 2%nat ];
      clear Hnext;
      (destruct c as [|[|[|c]]]; [| | |lia]);
      eexists _, _; (split; [reflexivity|]); (split; [reflexivity|]);
      (split; [reflexivity|]); reflexivity.
  - left. repeat split; try done.
    unfold RockScissorPaper_next. by rewrite bool_decide_eq_true_2.
Qed.

(** The three rounds of sten against each alternative of the computer. *)
Example sten_beats_sax :
  RockScissorPaper_next (py "sten") (World_init (fun _ => 1%nat))
  = Ok (FinishedGame (py "Du vann mot sax"),
        mkWorld {[ Hangman_default_guessed := ∅ ]} [] (fun _ => 1%nat) 1).
Proof. reflexivity. Qed.

Example sten_loses_to_pase :
  RockScissorPaper_next (py "sten") (World_init (fun _ => 2%nat))
  = Ok (FinishedGame (py "Du förlorar mot påse"),
        mkWorld {[ Hangman_default_guessed := ∅ ]} [] (fun _ => 2%nat) 1).
Proof. reflexivity. Qed.

Example sten_ties_sten :
  RockScissorPaper_next (py "sten") (World_init (fun _ => 0%nat))
  = Ok (FinishedGame (py "Oavgjort"),
        mkWorld {[ Hangman_default_guessed := ∅ ]} [] (fun _ => 0%nat) 1).
Proof. reflexivity. Qed.

(** ** Blackjack: the result of a game *)


Lemma playerWon_iff (bankValue playerValue : Z) :
  playerWon bankValue playerValue = true
  <-> (playerValue > bankValue /\ playerValue <= 21) \/ bankValue > 21.
Proof.
  unfold playerWon.
  rewrite orb_true_iff, andb_true_iff, !bool_decide_eq_true. tauto.
Qed.

Lemma Blackjack_end_message (self : Blackjack) :
  exists head,
    Blackjack_end self
    = FinishedGame
        (head
         ++ verdict (playerWon (Hand_value (bankHand self))
                               (Hand_value (playerHand self)))
         ++ nl ++ spaces 28).
Proof.
  unfold Blackjack_end. eexists.
  repeat rewrite (app_assoc _ _ (verdict _ ++ _)).
  reflexivity.
Qed.

(** C3: the state that [end] returns is finished, and its message closes
    with "Du vann" exactly when the player's value is above the bank's and
    at most 21, or the bank's value is above 21, and with "Banken vann"
    otherwise. [next] returns a finished state only as the result of [end]
    on the game as the draws left it, after "stand" or after a "hit" that
    took the player over 21; any other call returns the game unscored, and
    the finished state is returned as it is from then on. *)
Theorem Blackjack_scored_at_end (self : Blackjack) :
  (let bankValue := Hand_value (bankHand self) in
   let playerValue := Hand_value (playerHand self) in
   done (Blackjack_end self) = true
   /\ exists head,
       info (Blackjack_end self)
       = head
         ++ (if decide ((playerValue > bankValue /\ playerValue <= 21)
                        \/ bankValue > 21)
             then py "Du vann" else py "Banken vann")
         ++ nl ++ spaces 28)
  /\ forall answer self' game,
      Blackjack_next self answer = Ok (self', game) ->
      (game = Blackjack_end self'
       /\ (answer = py "stand"
           \/ (answer = py "hit" /\ Hand_value (playerHand self') > 21))
       /\ forall answer', FinishedGame_next game answer' = game)
      \/ (game = BlackjackGame self'
          /\ answer <> py "stand"
          /\ (answer = py "hit" -> Hand_value (playerHand self') <= 21)).
Proof.
  split.
  - cbv zeta. split; [reflexivity|].
    destruct (Blackjack_end_message self) as [head Hhead].
    exists head. rewrite Hhead. cbn [info]. do 2 f_equal.
    unfold verdict.
    destruct (playerWon _ _) eqn:E.
    + apply playerWon_iff in E. by rewrite decide_True.
    + rewrite decide_False; [done|]. intros H%playerWon_iff. congruence.
  - intros answer self' game. unfold Blackjack_next.
    destruct (bool_decide (answer = py "stand")) eqn:Es.
    + apply bool_decide_eq_true in Es.
      destruct (takeCardsUntilValue _ _) as [dh|e]; exc_step; [|discriminate].
      intros [= <- <-]. left. auto.
    + apply bool_decide_eq_false in Es.
      destruct (bool_decide (answer = py "hit")) eqn:Eh.
      * apply bool_decide_eq_true in Eh.
        destruct (takeCard _) as [dh|e]; exc_step; [|discriminate].
        destruct (bool_decide (Hand_value (snd dh) > 21)) eqn:Ev.
        -- apply bool_decide_eq_true in Ev. intros [= <- <-]. left. auto.
        -- apply bool_decide_eq_false in Ev. intros [= <- <-]. right.
           exc_step. repeat split; auto.
      * apply bool_decide_eq_false in Eh.
        intros [= <- <-]. right. repeat split; auto. intros ?. contradiction.
Qed.


Lemma Blackjack_scored_at_end_witness :
  Blackjack_next scored_game (py "hit")
  = Ok (mkBlackjack [card_of 5] [card_of 9; card_of 10]
                    [card_of 11; card_of 12; card_of 13],
        Blackjack_end (mkBlackjack [card_of 5] [card_of 9; card_of 10]
                                   [card_of 11; card_of 12; card_of 13]))
  /\ Hand_value [card_of 11; card_of 12; card_of 13] > 21.
Proof.
  assert (H : Blackjack_next scored_game (py "hit")
              = Ok (mkBlackjack [card_of 5] [card_of 9; card_of 10]
                      [card_of 11; card_of 12; card_of 13],
                    Blackjack_end (mkBlackjack [card_of 5] [card_of 9; card_of 10]
                                     [card_of 11; card_of 12; card_of 13])))
    by reflexivity.
  split; [exact H|].
  destruct (proj2 (Blackjack_scored_at_end scored_game) _ _ _ H)
    as [(_ & [Hs|[_ Hv]] & _)|(Hcont & _)].
  - discriminate Hs.
  - exact Hv.
  - discriminate Hcont.
Defined.

(** ** Hangman *)

Section HangmanProperties.

Variable lower : str -> str.

(** Lowering a text that is not empty gives a text that is not empty. *)
Hypothesis lower_nonempty : forall s : str, s <> [] -> lower s <> [].


Lemma fresh_loc_unused (w : World) : heap w !! fresh (dom (heap w)) = None.
Proof. apply not_elem_of_dom, is_fresh. Qed.

Lemma Hangman_next_eq (self : Hangman) (answer : str) (w : World)
    (G : gset N) (c : N) (rest : str) :
  lower answer = c :: rest ->
  heap w !! guessed self = Some G ->
  Hangman_next lower self answer w
  = Ok (if foundWord lower self (G ∪ {[ c ]})
        then FinishedGame (py "Du hittade ordet " ++ word self)
        else if bool_decide (gl lower self G c < 1)
             then FinishedGame (py "Du hittade inte ordet " ++ word self)
             else HangmanGame
                    (mkHangman (gl lower self G c) (word self)
                               (fresh (dom (heap w)))),
        world_after_guess lower self G c w).
Proof.
  intros Hc HG. unfold Hangman_next. rewrite Hc.
  unfold bind, print, deref, alloc, ret. cbn [heap stdout rng rpos].
  rewrite HG. rewrite lookup_insert_eq. reflexivity.
Qed.

Lemma foundWord_iff (self : Hangman) (g : gset N) :
  foundWord lower self g = true <-> forall x, x ∈ lower (word self) -> x ∈ g.
Proof.
  unfold foundWord. rewrite bool_decide_eq_true. set_solver.
Qed.

Lemma gl_cases (self : Hangman) (G : gset N) (c : N) :
  ((c ∉ G) /\ (c ∉ lower (word self)) /\ gl lower self G c = guessesLeft self - 1)
  \/ ((c ∈ G \/ c ∈ lower (word self)) /\ gl lower self G c = guessesLeft self).
Proof.
  unfold gl, correctGuess.
  destruct (bool_decide (c ∈ G)) eqn:E1;
    [apply bool_decide_eq_true in E1 | apply bool_decide_eq_false in E1];
    (destruct (bool_decide (c ∈ lower (word self))) eqn:E2;
     [apply bool_decide_eq_true in E2 | apply bool_decide_eq_false in E2]);
    cbn; tauto.
Qed.

(** C5: a call of [next] with an answer that is not empty finishes the game
    exactly when the guessed set with the new letter covers every letter of
    the lowered word, or the new number of guesses left is below 1. The
    cover is looked at first and gives the message of a found word, the
    number of guesses second and gives the message of a word not found; in
    any other case the result is a hangman state with the new number, the
    same word and a new set object holding the new guessed set. *)
Theorem Hangman_next_resolution (self : Hangman) (answer : str) (w : World)
    (G : gset N) :
  answer <> [] ->
  heap w !! guessed self = Some G ->
  exists c rest game w',
    lower answer = c :: rest
    /\ Hangman_next lower self answer w = Ok (game, w')
    /\ let covered := forall x, x ∈ lower (word self) -> x ∈ G ∪ {[ c ]} in
       let gl' := gl lower self G c in
       (done game = true <-> covered \/ gl' < 1)
       /\ (covered -> game = FinishedGame (py "Du hittade ordet " ++ word self))
       /\ (~ covered -> gl' < 1 ->
           game = FinishedGame (py "Du hittade inte ordet " ++ word self))
       /\ (~ covered -> 1 <= gl' ->
           exists l, game = HangmanGame (mkHangman gl' (word self) l)
                     /\ heap w !! l = None
                     /\ heap w' !! l = Some (G ∪ {[ c ]})).
Proof.
  intros Hne HG.
  destruct (lower answer) as [|c rest] eqn:Hc.
  { exfalso. by apply (lower_nonempty answer). }
  exists c, rest. eexists _, _. split; [reflexivity|].
  split; [exact (Hangman_next_eq _ _ _ _ _ _ Hc HG)|].
  cbv zeta.
  destruct (foundWord lower self (G ∪ {[ c ]})) eqn:Ef.
  - pose proof (proj1 (foundWord_iff _ _) Ef) as Hcov.
    repeat split; try tauto.
  - assert (Hnc : ~ (forall x, x ∈ lower (word self) -> x ∈ G ∪ {[ c ]})).
    { intros H. apply (proj2 (foundWord_iff _ _)) in H. congruence. }
    destruct (bool_decide (gl lower self G c < 1)) eqn:Eg.
    + apply bool_decide_eq_true in Eg. repeat split; try tauto; try lia.
    + apply bool_decide_eq_false in Eg. repeat split; try tauto; try lia.
      * cbn. discriminate.
      * intros _ _. eexists. split; [reflexivity|]. split.
        -- apply fresh_loc_unused.
        -- cbn [world_after_guess heap]. apply lookup_insert_eq.
Qed.

(** C4: a call of [next] with an answer that is not empty computes the new
    number of guesses [gl] as one less than before exactly when the guessed
    letter is neither in the guessed set nor in the lowered word, and as the
    number before in any other case, so it never goes up. That number is
    what the call goes by. When the guessed letters cover the lowered word
    the call returns the finished game of the word found; when they do not, a
    number below 1 returns the finished game of the word not found, and any
    other number returns a hangman state that carries it, with the same
    word, on which guessing the same letter again returns a hangman state
    with the same number once more. *)
Theorem Hangman_next_guessesLeft (self : Hangman) (answer : str) (w : World)
    (G : gset N) :
  answer <> [] ->
  heap w !! guessed self = Some G ->
  exists c rest game w',
    lower answer = c :: rest
    /\ Hangman_next lower self answer w = Ok (game, w')
    /\ let gl' := gl lower self G c in
       let covered := forall x, x ∈ lower (word self) -> x ∈ G ∪ {[ c ]} in
       (gl' = guessesLeft self - 1 <-> (c ∉ G) /\ (c ∉ lower (word self)))
       /\ (gl' = guessesLeft self <-> c ∈ G \/ c ∈ lower (word self))
       /\ gl' <= guessesLeft self
       /\ (covered -> game = FinishedGame (py "Du hittade ordet " ++ word self))
       /\ (~ covered -> gl' < 1 ->
           game = FinishedGame (py "Du hittade inte ordet " ++ word self))
       /\ (~ covered -> 1 <= gl' ->
           exists h',
             game = HangmanGame h'
             /\ guessesLeft h' = gl'
             /\ word h' = word self
             /\ forall answer2 rest2,
                  lower answer2 = c :: rest2 ->
                  exists h2 w2,
                    Hangman_next lower h' answer2 w' = Ok (HangmanGame h2, w2)
                    /\ guessesLeft h2 = gl'
                    /\ word h2 = word self)
       /\ forall h', game = HangmanGame h' ->
            guessesLeft h' = gl'
            /\ forall answer2 rest2 game2 w2 h2,
                 lower answer2 = c :: rest2 ->
                 Hangman_next lower h' answer2 w' = Ok (game2, w2) ->
                 game2 = HangmanGame h2 ->
                 guessesLeft h2 = guessesLeft h'.
Proof.
  intros Hne HG.
  destruct (lower answer) as [|c rest] eqn:Hc.
  { exfalso. by apply (lower_nonempty answer). }
  exists c, rest. eexists _, _. split; [reflexivity|].
  split; [exact (Hangman_next_eq _ _ _ _ _ _ Hc HG)|].
  cbv zeta.
  assert (Hgl1 : gl lower self G c = guessesLeft self - 1
                 <-> (c ∉ G) /\ (c ∉ lower (word self)))
    by (destruct (gl_cases self G c) as [(H1 & H2 & Hgl)|(H1 & Hgl)];
        rewrite Hgl; split; intros; first [lia | tauto]).
  assert (Hgl2 : gl lower self G c = guessesLeft self
                 <-> c ∈ G \/ c ∈ lower (word self))
    by (destruct (gl_cases self G c) as [(H1 & H2 & Hgl)|(H1 & Hgl)];
        rewrite Hgl; split; intros; first [lia | tauto]).
  assert (Hgl3 : gl lower self G c <= guessesLeft self)
    by (destruct (gl_cases self G c) as [(H1 & H2 & Hgl)|(H1 & Hgl)]; lia).
  split; [exact Hgl1|]. split; [exact Hgl2|]. split; [exact Hgl3|].
  (* the same letter once more, on the state that goes on *)
  assert (Hagain : forall answer2 rest2 w1,
             foundWord lower self (G ∪ {[ c ]}) = false ->
             1 <= gl lower self G c ->
             lower answer2 = c :: rest2 ->
             heap w1 !! fresh (dom (heap w)) = Some (G ∪ {[ c ]}) ->
             Hangman_next lower
               (mkHangman (gl lower self G c) (word self) (fresh (dom (heap w))))
               answer2 w1
             = Ok (HangmanGame
                     (mkHangman (gl lower self G c) (word self)
                                (fresh (dom (heap w1)))),
                   world_after_guess lower
                     (mkHangman (gl lower self G c) (word self)
                                (fresh (dom (heap w))))
                     (G ∪ {[ c ]}) c w1)).
  { intros answer2 rest2 w1 Ef Hone Hc2 Hw1.
    rewrite (Hangman_next_eq
               (mkHangman (gl lower self G c) (word self)
                          (fresh (dom (heap w))))
               answer2 w1 (G ∪ {[ c ]}) c rest2 Hc2 Hw1).
    assert (Hsame : G ∪ {[ c ]} ∪ {[ c ]} = G ∪ {[ c ]})
      by (apply leibniz_equiv; intros x; rewrite !elem_of_union; tauto).
    rewrite Hsame.
    change (foundWord lower
              (mkHangman (gl lower self G c) (word self) (fresh (dom (heap w))))
              (G ∪ {[ c ]}))
      with (foundWord lower self (G ∪ {[ c ]})).
    rewrite Ef.
    assert (Hkeep : gl lower
                      (mkHangman (gl lower self G c) (word self)
                                 (fresh (dom (heap w))))
                      (G ∪ {[ c ]}) c
                    = gl lower self G c).
    { unfold gl at 1. cbn [guessesLeft].
      rewrite bool_decide_eq_true_2
        by (apply elem_of_union_r, elem_of_singleton; reflexivity).
      reflexivity. }
    rewrite Hkeep. rewrite bool_decide_eq_false_2 by lia. reflexivity. }
  destruct (foundWord lower self (G ∪ {[ c ]})) eqn:Ef.
  { pose proof (proj1 (foundWord_iff _ _) Ef) as Hcov.
    split; [reflexivity|].
    split; [intros Hn; by destruct Hn|].
    split; [intros Hn; by destruct Hn|].
    intros h' Hh'. discriminate Hh'. }
  assert (Hnc : ~ (forall x, x ∈ lower (word self) -> x ∈ G ∪ {[ c ]})).
  { intros H. apply (proj2 (foundWord_iff _ _)) in H. congruence. }
  destruct (bool_decide (gl lower self G c < 1)) eqn:Eg.
  { apply bool_decide_eq_true in Eg.
    split; [intros Hcov; by destruct Hnc|].
    split; [reflexivity|]. split; [intros _ Hone; lia|].
    intros h' Hh'. discriminate Hh'. }
  apply bool_decide_eq_false in Eg.
  split; [intros Hcov; by destruct Hnc|].
  split; [intros _ Hless; lia|].
  split.
  - intros _ Hone. eexists. split; [reflexivity|].
    split; [reflexivity|]. split; [reflexivity|].
    intros answer2 rest2 Hc2. eexists _, _.
    split; [apply (Hagain answer2 rest2 _ eq_refl Hone Hc2);
            cbn [world_after_guess heap]; apply lookup_insert_eq|].
    by split.
  - intros h' [= <-]. split; [reflexivity|].
    intros answer2 rest2 game2 w2 h2 Hc2 Hnext2 ->.
    rewrite (Hagain answer2 rest2 _ eq_refl ltac:(lia) Hc2) in Hnext2
      by (cbn [world_after_guess heap]; apply lookup_insert_eq).
    by injection Hnext2 as <- _.
Qed.

End HangmanProperties.

Lemma lower_latin1_nonempty (s : str) : s <> [] -> lower_latin1 s <> [].
Proof. by destruct s. Qed.

Lemma Hangman_next_resolution_witness :
  exists c rest game w',
    lower_latin1 (py "Xylofon") = c :: rest
    /\ Hangman_next lower_latin1 (Hangman_init 1 (py "Apa") None) (py "Xylofon")
         (World_init (fun _ => 0%nat))
       = Ok (game, w')
    /\ (gl lower_latin1 (Hangman_init 1 (py "Apa") None) ∅ c < 1 ->
        game = FinishedGame (py "Du hittade inte ordet Apa")).
Proof.
  destruct (Hangman_next_resolution lower_latin1 lower_latin1_nonempty
              (Hangman_init 1 (py "Apa") None) (py "Xylofon")
              (World_init (fun _ => 0%nat)) ∅)
    as (c & rest & game & w' & Hc & Hnext & _ & _ & Hloss & _).
  - by vm_compute.
  - reflexivity.
  - exists c, rest, game, w'. split; [exact Hc|]. split; [exact Hnext|].
    apply Hloss. intros Hcovered.
    vm_compute in Hc. injection Hc as <- _.
    assert (Hp : 112%N ∈ lower_latin1 (word (Hangman_init 1 (py "Apa") None)))
      by (apply (bool_decide_unpack _); by vm_compute).
    specialize (Hcovered 112%N Hp).
    revert Hcovered. apply (bool_decide_unpack _). by vm_compute.
Defined.

Lemma Hangman_next_guessesLeft_witness :
  exists h' w',
    Hangman_next lower_latin1 (Hangman_init 5 (py "Apa") None) (py "Xylofon")
      (World_init (fun _ => 0%nat))
    = Ok (HangmanGame h', w')
    /\ guessesLeft (Hangman_init 5 (py "Apa") None) = 5
    /\ guessesLeft h' = 4.
Proof.
  destruct (Hangman_next_guessesLeft lower_latin1 lower_latin1_nonempty
              (Hangman_init 5 (py "Apa") None) (py "Xylofon")
              (World_init (fun _ => 0%nat)) ∅)
    as (c & rest & game & w' & Hc & Hnext & Hless & _ & _ & _ & _ & Hgoes & _).
  - by vm_compute.
  - reflexivity.
  - vm_compute in Hc. injection Hc as <- _.
    assert (Hgl : gl lower_latin1 (Hangman_init 5 (py "Apa") None) ∅ 120%N = 4).
    { apply Hless. split; apply (bool_decide_unpack _); by vm_compute. }
    destruct Hgoes as (h' & -> & Hh' & _).
    + intros Hcovered.
      assert (Hp : 112%N ∈ lower_latin1 (word (Hangman_init 5 (py "Apa") None)))
        by (apply (bool_decide_unpack _); by vm_compute).
      specialize (Hcovered 112%N Hp).
      revert Hcovered. apply (bool_decide_unpack _). by vm_compute.
    + rewrite Hgl. lia.
    + exists h', w'. split; [exact Hnext|]. split; [reflexivity|].
      by rewrite Hh'.
Defined.

(** A game on the word "cat" with 5 guesses. *)
Example cat_found :
  match run lower_latin1 (HangmanGame (Hangman_init 5 (py "cat") None))
            [py "c"; py "a"; py "t"] (World_init (fun _ => 0%nat)) with
  | Ok (game, _) => game = FinishedGame (py "Du hittade ordet cat")
  | Raise _ => False
  end.
Proof. vm_compute. reflexivity. Qed.

Example cat_not_found :
  match run lower_latin1 (HangmanGame (Hangman_init 5 (py "cat") None))
            [py "x"; py "y"; py "z"; py "q"; py "w"]
            (World_init (fun _ => 0%nat)) with
  | Ok (game, _) => game = FinishedGame (py "Du hittade inte ordet cat")
  | Raise _ => False
  end.
Proof. vm_compute. reflexivity. Qed.

Example last_guess_wrong :
  match next lower_latin1 (HangmanGame (Hangman_init 1 (py "cat") None))
             (py "x") (World_init (fun _ => 0%nat)) with
  | Ok (game, _) => game = FinishedGame (py "Du hittade inte ordet cat")
  | Raise _ => False
  end.
Proof. vm_compute. reflexivity. Qed.

(** ** The heap of set objects under the game loop *)


Lemma keeps_sets_ret {A} (a : A) : keeps_sets (ret a).
Proof. intros w a' w' [= _ <-]. auto. Qed.

Lemma keeps_sets_raise {A} (e : exn) : keeps_sets (@raise A e).
Proof. intros w a w' H. discriminate H. Qed.

Lemma keeps_sets_lift {A} (c : Exc A) : keeps_sets (lift c).
Proof. intros w a w'. unfold lift. destruct c; [intros [= _ <-]; auto | discriminate]. Qed.

Lemma keeps_sets_bind {A B} (c : M A) (k : A -> M B) :
  keeps_sets c -> (forall a, keeps_sets (k a)) -> keeps_sets (bind c k).
Proof.
  intros Hc Hk w b w' H l S Hl. unfold bind in H.
  destruct (c w) as [[a w1]|e] eqn:E; [|discriminate].
  eapply Hk; [exact H|]. eapply Hc; eauto.
Qed.

Lemma keeps_sets_print (line : str) : keeps_sets (print line).
Proof. intros w a w' [= _ <-]. auto. Qed.

Lemma keeps_sets_deref (l : loc) : keeps_sets (deref l).
Proof.
  intros w a w'. unfold deref.
  destruct (heap w !! l); [intros [= _ <-]; auto | discriminate].
Qed.

Lemma keeps_sets_randbelow (n : nat) : keeps_sets (randbelow n).
Proof. intros w a w' [= _ <-]. auto. Qed.

Lemma keeps_sets_alloc (s : gset N) : keeps_sets (alloc s).
Proof.
  intros w a w' [= _ <-] l S Hl. cbn [heap].
  rewrite lookup_insert_ne; [done|].
  intros <-. rewrite (proj1 (not_elem_of_dom _ _) (is_fresh _)) in Hl.
  discriminate.
Qed.

Lemma keeps_sets_if {A} (b : bool) (c1 c2 : M A) :
  keeps_sets c1 -> keeps_sets c2 -> keeps_sets (if b then c1 else c2).
Proof. by destruct b. Qed.

Create HintDb keeps_sets.
#[local] Hint Resolve keeps_sets_ret keeps_sets_raise keeps_sets_lift
  keeps_sets_print keeps_sets_deref keeps_sets_randbelow keeps_sets_alloc
  : keeps_sets.

Ltac keeps_sets_steps :=
  repeat first
    [ apply keeps_sets_bind; [|intros ?]
    | apply keeps_sets_if
    | solve [auto with keeps_sets] ].

Lemma keeps_sets_randint (a b : Z) : keeps_sets (randint a b).
Proof. unfold randint. keeps_sets_steps. Qed.

Lemma keeps_sets_RockScissorPaper_next (answer : str) :
  keeps_sets (RockScissorPaper_next answer).
Proof.
  unfold RockScissorPaper_next.
  pose proof keeps_sets_randint. keeps_sets_steps.
Qed.

Lemma keeps_sets_Hangman_next (lower : str -> str) (self : Hangman) (answer : str) :
  keeps_sets (Hangman_next lower self answer).
Proof.
  unfold Hangman_next. destruct (lower answer); keeps_sets_steps.
Qed.

Lemma keeps_sets_next (lower : str -> str) (game : GameState) (answer : str) :
  keeps_sets (next lower game answer).
Proof.
  destruct game; cbn [next].
  - keeps_sets_steps.
  - apply keeps_sets_Hangman_next.
  - apply keeps_sets_RockScissorPaper_next.
  - keeps_sets_steps.
Qed.

Lemma keeps_sets_next_all (lower : str -> str) (answers : list str) (game : GameState) :
  keeps_sets (next_all lower game answers).
Proof.
  revert game. induction answers as [|answer answers IH]; intros game; cbn [next_all].
  - keeps_sets_steps.
  - apply keeps_sets_bind; [apply keeps_sets_next | intros game'; apply IH].
Qed.

Lemma keeps_sets_run (lower : str -> str) (inputs : list str) (game : GameState) :
  keeps_sets (run lower game inputs).
Proof.
  revert game. induction inputs as [|answer inputs IH]; intros game.
  - cbn [run]. destruct (done game); keeps_sets_steps.
  - cbn [run]. destruct (done game); [keeps_sets_steps|].
    destruct answer as [|c answer]; [apply IH|].
    apply keeps_sets_bind; [apply keeps_sets_next | intros game'].
    apply keeps_sets_bind; [|intros _; apply IH].
    keeps_sets_steps.
Qed.

(** C2, as the program has it: two games made without a guessed set do
    not own a set each, they refer to the one default set object. *)
Lemma Hangman_default_guessed_shared :
  ~ own_guessed_set (Hangman_init 5 (py "Apa") None)
                    (Hangman_init 5 (py "Giraff") None).
Proof. intros Hown. apply Hown. reflexivity. Qed.

(** C2, amended: a game made without a guessed set, by [Hangman.__init__]
    or by [Hangman.create], refers to the one default set object, which is
    empty; and no sequence of calls of [next], and no run of the game loop,
    on any game, changes the default set or any other set object that
    existed before, so the guessed letters of one game never show in
    another. *)
Theorem Hangman_default_set_kept (lower : str -> str) (w : World) :
  heap w !! Hangman_default_guessed = Some ∅ ->
  (forall guessesLeft word,
      guessed (Hangman_init guessesLeft word None) = Hangman_default_guessed
      /\ heap w !! guessed (Hangman_init guessesLeft word None) = Some ∅)
  /\ (forall guessesLeft words h w',
         Hangman_create guessesLeft words w = Ok (h, w') ->
         guessed h = Hangman_default_guessed /\ heap w' = heap w)
  /\ (forall game answers game' w',
         next_all lower game answers w = Ok (game', w') ->
         (forall l S, heap w !! l = Some S -> heap w' !! l = Some S)
         /\ (forall guessesLeft word,
                heap w' !! guessed (Hangman_init guessesLeft word None) = Some ∅))
  /\ (forall game inputs game' w',
         run lower game inputs w = Ok (game', w') ->
         (forall l S, heap w !! l = Some S -> heap w' !! l = Some S)
         /\ heap w' !! Hangman_default_guessed = Some ∅).
Proof.
  intros Hdefault. split; [by split|]. split; [|split].
  - intros guessesLeft words h w'. unfold Hangman_create, choice.
    destruct words as [|word0 words]; [discriminate|].
    unfold bind, randbelow.
    destruct ((word0 :: words) !! _); [|discriminate].
    by intros [= <- <-].
  - intros game answers game' w' Hrun.
    pose proof (keeps_sets_next_all lower answers game w game' w' Hrun) as Hframe.
    split; [exact Hframe|].
    intros guessesLeft word. cbn [Hangman_init default guessed].
    by apply Hframe.
  - intros game inputs game' w' Hrun.
    pose proof (keeps_sets_run lower inputs game w game' w' Hrun) as Hframe.
    split; [exact Hframe | by apply Hframe].
Qed.

Lemma Hangman_default_set_kept_witness :
  exists game' w',
    next_all lower_latin1 (HangmanGame (Hangman_init 5 (py "Apa") None))
             [py "x"; py "A"] (World_init (fun _ => 0%nat))
    = Ok (game', w')
    /\ heap w' !! guessed (Hangman_init 5 (py "Giraff") None) = Some ∅.
Proof.
  destruct (next_all lower_latin1 (HangmanGame (Hangman_init 5 (py "Apa") None))
              [py "x"; py "A"] (World_init (fun _ => 0%nat)))
    as [[game' w']|e] eqn:Hrun.
  - exists game', w'. split; [reflexivity|].
    destruct (Hangman_default_set_kept lower_latin1
                (World_init (fun _ => 0%nat)) eq_refl)
      as (_ & _ & Hnext & _).
    exact (proj2 (Hnext _ _ _ _ Hrun) 5 (py "Giraff")).
  - vm_compute in Hrun. discriminate Hrun.
Defined.

(** ** Blackjack: drawing cards *)

Lemma pop_snoc {A} (l : list A) (x : A) : pop (l ++ [x]) = Ok (x, l).
Proof. unfold pop. by rewrite reverse_snoc, reverse_involutive. Qed.

Lemma pop_nil {A} : pop (@nil A) = Raise IndexError.
Proof. reflexivity. Qed.

Lemma snoc_cases {A} (l : list A) : l = [] \/ exists l' x, l = l' ++ [x].
Proof.
  destruct (reverse l) as [|x r] eqn:E.
  - left. apply (f_equal reverse) in E. by rewrite reverse_involutive in E.
  - right. exists (reverse r), x.
    apply (f_equal reverse) in E.
    by rewrite reverse_involutive, reverse_cons in E.
Qed.

Lemma takeCard_snoc (d h : list BlackjackCard) (c : BlackjackCard) :
  takeCard (d ++ [c], h) = Ok (d, h ++ [c]).
Proof. unfold takeCard, drawCard. cbn [fst snd]. by rewrite pop_snoc. Qed.

Lemma Hand_value_from (l : list BlackjackCard) (a : Z) :
  fold_left (fun a c => a + value c) l a = a + Hand_value l.
Proof.
  unfold Hand_value. revert a.
  induction l as [|c l IH]; intros a; cbn [fold_left]; [lia|].
  rewrite (IH (a + value c)), (IH (0 + value c)). lia.
Qed.

Lemma Hand_value_nil : Hand_value [] = 0.
Proof. reflexivity. Qed.

Lemma Hand_value_cons (c : BlackjackCard) (l : list BlackjackCard) :
  Hand_value (c :: l) = value c + Hand_value l.
Proof. unfold Hand_value at 1. cbn [fold_left]. by rewrite Hand_value_from. Qed.

Lemma Hand_value_app (l1 l2 : list BlackjackCard) :
  Hand_value (l1 ++ l2) = Hand_value l1 + Hand_value l2.
Proof.
  induction l1 as [|c l1 IH]; cbn [app].
  - rewrite Hand_value_nil. lia.
  - rewrite !Hand_value_cons, IH. lia.
Qed.

Lemma Hand_value_snoc (l : list BlackjackCard) (c : BlackjackCard) :
  Hand_value (l ++ [c]) = Hand_value l + value c.
Proof. rewrite Hand_value_app, Hand_value_cons, Hand_value_nil. lia. Qed.


Lemma Hand_value_from_2 (l : list BlackjackCard) :
  from_2 l -> 2 * Z.of_nat (length l) <= Hand_value l.
Proof.
  induction 1 as [|c l Hc Hl IH].
  - rewrite Hand_value_nil. cbn. lia.
  - rewrite Hand_value_cons. cbn [length]. lia.
Qed.

(** The fuel of [takeCardsUntilValue] is enough for any deck and hand: the
    loop returns or raises [IndexError] on the empty deck. *)
Lemma takeCardsUntilValue_loop_fuel (fuel : nat) (v : Z) :
  forall dh : list BlackjackCard * list BlackjackCard,
    (length (fst dh) < fuel)%nat ->
    takeCardsUntilValue_loop fuel v dh <> Raise OutOfFuel.
Proof.
  induction fuel as [|fuel IH]; intros [d h] Hfuel; [cbn in Hfuel; lia|].
  cbn [takeCardsUntilValue_loop fst snd] in *.
  destruct (bool_decide (Hand_value h < v)); [|discriminate].
  destruct (snoc_cases d) as [->|(d0 & c & ->)]; [discriminate|].
  rewrite takeCard_snoc. cbn [Exc_bind]. apply IH.
  rewrite length_app in Hfuel. cbn [fst length] in *. lia.
Qed.

Lemma takeCardsUntilValue_fuel (v : Z)
    (dh : list BlackjackCard * list BlackjackCard) :
  takeCardsUntilValue v dh <> Raise OutOfFuel.
Proof. apply takeCardsUntilValue_loop_fuel. lia. Qed.

(** The loop of [takeCardsUntilValue] on a deck that is large enough for the
    value asked for: it returns, with the cards [drawn] moved from the end
    of the deck to the hand, on the first value that is [v] or more. *)
Lemma takeCardsUntilValue_loop_draws (fuel : nat) (v : Z) :
  forall d h : list BlackjackCard,
    from_2 d ->
    v - Hand_value h <= 2 * Z.of_nat (length d) ->
    (length d < fuel)%nat ->
    exists drawn d',
      takeCardsUntilValue_loop fuel v (d, h) = Ok (d', h ++ drawn)
      /\ d = d' ++ reverse drawn
      /\ v <= Hand_value (h ++ drawn)
      /\ forall n, (n < length drawn)%nat -> Hand_value (h ++ take n drawn) < v.
Proof.
  induction fuel as [|fuel IH]; intros d h Hd Hv Hfuel; [lia|].
  cbn [takeCardsUntilValue_loop snd].
  destruct (bool_decide (Hand_value h < v)) eqn:E.
  - apply bool_decide_eq_true in E.
    destruct (snoc_cases d) as [->|(d0 & c & ->)];
      [exfalso; cbn [length] in Hv; lia|].
    rewrite takeCard_snoc. cbn [Exc_bind].
    apply Forall_app in Hd as [Hd0 Hc]. rewrite Forall_singleton in Hc.
    rewrite length_app in Hv, Hfuel. cbn [length] in Hv, Hfuel.
    destruct (IH d0 (h ++ [c])) as (drawn & d' & Hloop & Hdeck & Hval & Hfirst).
    + exact Hd0.
    + rewrite Hand_value_snoc. lia.
    + lia.
    + exists (c :: drawn), d'.
      rewrite <- app_assoc in Hloop, Hval. cbn [app] in Hloop, Hval.
      split; [exact Hloop|]. split.
      { rewrite reverse_cons, app_assoc. by rewrite <- Hdeck. }
      split; [exact Hval|].
      intros [|n] Hn.
      * cbn [take]. by rewrite app_nil_r.
      * cbn [take length] in *. specialize (Hfirst n ltac:(lia)).
        by rewrite <- app_assoc in Hfirst.
  - apply bool_decide_eq_false in E.
    exists [], d. rewrite app_nil_r. cbn [reverse length].
    split; [reflexivity|]. split; [by rewrite app_nil_r|].
    split; [lia|]. intros n Hn. lia.
Qed.

(** ** Blackjack: the deck *)

Lemma swap_Permutation {A} (i j : nat) (x : list A) : swap i j x ≡ₚ x.
Proof.
  unfold swap.
  destruct (x !! i) as [xi|] eqn:Hi; [|done].
  destruct (x !! j) as [xj|] eqn:Hj; [|done].
  by apply Permutation_insert_swap.
Qed.

Lemma shuffle_from_Permutation {A} (i : nat) :
  forall (x : list A) (w : World),
    exists x' w', shuffle_from i x w = Ok (x', w') /\ x' ≡ₚ x.
Proof.
  induction i as [|i IH]; intros x w.
  - exists x, w. by split.
  - cbn [shuffle_from]. unfold bind, randbelow.
    destruct (IH (swap (S i) (rng w (rpos w) mod S (S i)) x)
                 (mkWorld (heap w) (stdout w) (rng w) (S (rpos w))))
      as (x' & w' & Hrun & Hperm).
    exists x', w'. split; [exact Hrun|].
    by rewrite Hperm, swap_Permutation.
Qed.

Lemma BlackjackDeck_init_Permutation (w : World) :
  exists cards w', BlackjackDeck_init w = Ok (cards, w') /\ cards ≡ₚ unshuffled.
Proof. apply shuffle_from_Permutation. Qed.

Lemma unshuffled_length : length unshuffled = 51%nat.
Proof. reflexivity. Qed.

Lemma unshuffled_from_2 : from_2 unshuffled.
Proof. apply (bool_decide_unpack _). by vm_compute. Qed.

Lemma unshuffled_labels_NoDup : NoDup (map label unshuffled).
Proof. apply (bool_decide_unpack _). by vm_compute. Qed.

Lemma unshuffled_without_first : label (card_of 0) ∉ map label unshuffled.
Proof. apply (bool_decide_unpack _). by vm_compute. Qed.

(** C1, as the program has it: a new deck holds the 51 cards for
    [i = 1 .. 51], with 51 different labels; the card for [i = 0], the ace of
    spades, is not among them, so the deck is one card short of the 52 cards
    of 4 colours and 13 names. A draw takes the last card and leaves the
    others as they were. *)
Theorem BlackjackDeck_init_51_cards (w : World) :
  exists cards w',
    BlackjackDeck_init w = Ok (cards, w')
    /\ cards ≡ₚ map card_of (seq 1 51)
    /\ length cards = 51%nat
    /\ NoDup (map label cards)
    /\ label (card_of 0) = py "Spader Ess"
    /\ (label (card_of 0) ∉ map label cards)
    /\ drawCard (@nil BlackjackCard) = Raise IndexError
    /\ forall rest c, drawCard (rest ++ [c]) = Ok (c, rest).
Proof.
  destruct (BlackjackDeck_init_Permutation w) as (cards & w' & Hinit & Hperm).
  exists cards, w'. split; [exact Hinit|].
  split; [exact Hperm|].
  split; [by rewrite Hperm|].
  split; [rewrite Hperm; apply unshuffled_labels_NoDup|].
  split; [reflexivity|].
  split; [rewrite Hperm; apply unshuffled_without_first|].
  split; [reflexivity|].
  intros rest c. apply pop_snoc.
Qed.

(** ** Blackjack: the games in play *)

Lemma Permutation_draw_last {A} (d h1 h2 : list A) (c : A) :
  d ++ h1 ++ h2 ++ [c] ≡ₚ (d ++ [c]) ++ h1 ++ h2.
Proof.
  rewrite <- !app_assoc. f_equiv.
  rewrite (app_assoc h1 h2 [c]). apply Permutation_app_comm.
Qed.

Lemma Permutation_draw_middle {A} (d h1 h2 : list A) (c : A) :
  d ++ (h1 ++ [c]) ++ h2 ≡ₚ (d ++ [c]) ++ h1 ++ h2.
Proof.
  rewrite <- !app_assoc. f_equiv. cbn [app].
  by rewrite <- Permutation_middle.
Qed.

Lemma Blackjack_inv_cards (self : Blackjack) :
  Blackjack_inv self ->
  from_2 (deck self) /\ from_2 (bankHand self) /\ from_2 (playerHand self)
  /\ (length (deck self) + length (bankHand self) + length (playerHand self)
      = 51)%nat.
Proof.
  intros (Hperm & _ & _).
  assert (Hall : from_2 (deck self ++ bankHand self ++ playerHand self)).
  { unfold from_2. rewrite Hperm. apply unshuffled_from_2. }
  apply Forall_app in Hall as [Hd Hall]. apply Forall_app in Hall as [Hb Hp].
  repeat split; try assumption.
  apply Permutation_length in Hperm.
  rewrite !length_app, unshuffled_length in Hperm. lia.
Qed.

Lemma Blackjack_inv_sizes (self : Blackjack) :
  Blackjack_inv self ->
  (length (bankHand self) = 2 /\ length (playerHand self) <= 10
   /\ 39 <= length (deck self))%nat.
Proof.
  intros Hinv.
  destruct (Blackjack_inv_cards self Hinv) as (_ & _ & Hp & Hlen).
  destruct Hinv as (_ & Hbank & Hplayer).
  apply Hand_value_from_2 in Hp.
  assert (length (playerHand self) <= 10)%nat by (destruct Hplayer; lia).
  lia.
Qed.

Lemma Blackjack_init_inv (w : World) :
  exists self w', Blackjack_init w = Ok (self, w') /\ Blackjack_inv self.
Proof.
  destruct (BlackjackDeck_init_Permutation w) as (cards & w' & Hinit & Hperm).
  assert (Hlen : length cards = 51%nat) by (by rewrite Hperm).
  destruct (snoc_cases cards) as [->|(d1 & b1 & ->)]; [discriminate Hlen|].
  destruct (snoc_cases d1) as [->|(d2 & b2 & ->)]; [discriminate Hlen|].
  destruct (snoc_cases d2) as [->|(d3 & p1 & ->)]; [discriminate Hlen|].
  destruct (snoc_cases d3) as [->|(d4 & p2 & ->)]; [discriminate Hlen|].
  exists (mkBlackjack d4 [b1; b2] [p1; p2]), w'. split.
  - unfold Blackjack_init, bind. rewrite Hinit. unfold lift.
    rewrite takeCard_snoc. cbn [Exc_bind].
    rewrite takeCard_snoc. cbn [Exc_bind fst snd].
    rewrite takeCard_snoc. cbn [Exc_bind].
    rewrite takeCard_snoc. cbn [Exc_bind fst snd]. reflexivity.
  - split; [|split; [reflexivity | by right]].
    cbn [deck bankHand playerHand]. rewrite <- Hperm.
    rewrite <- !app_assoc. f_equiv. cbn [app].
    exact (reverse_Permutation [p2; p1; b2; b1]).
Qed.

(** A "hit" on a game in play: the card drawn, and the game after it. *)
Lemma Blackjack_inv_hit (self : Blackjack) :
  Blackjack_inv self ->
  exists c d',
    deck self = d' ++ [c]
    /\ 2 <= value c
    /\ takeCard (deck self, playerHand self) = Ok (d', playerHand self ++ [c])
    /\ d' ++ bankHand self ++ playerHand self ++ [c] ≡ₚ unshuffled.
Proof.
  intros Hinv.
  destruct (Blackjack_inv_cards self Hinv) as (Hd & _ & _ & _).
  destruct (Blackjack_inv_sizes self Hinv) as (_ & _ & Hdeck).
  destruct Hinv as (Hperm & _ & _).
  destruct (snoc_cases (deck self)) as [E|(d' & c & E)].
  { rewrite E in Hdeck. cbn in Hdeck. lia. }
  exists c, d'. split; [exact E|].
  rewrite E in Hd, Hperm |- *.
  apply Forall_app in Hd as [_ Hc]. rewrite Forall_singleton in Hc.
  split; [exact Hc|]. split; [apply takeCard_snoc|].
  by rewrite Permutation_draw_last.
Qed.

(** A "stand" on a game in play: the cards the bank draws. *)
Lemma Blackjack_inv_stand (self : Blackjack) :
  Blackjack_inv self ->
  exists drawn d',
    deck self = d' ++ reverse drawn
    /\ takeCardsUntilValue 17 (deck self, bankHand self)
       = Ok (d', bankHand self ++ drawn)
    /\ 17 <= Hand_value (bankHand self ++ drawn)
    /\ (forall n, (n < length drawn)%nat ->
          Hand_value (bankHand self ++ take n drawn) < 17)
    /\ (length (bankHand self ++ drawn) <= 9)%nat
    /\ d' ++ (bankHand self ++ drawn) ++ playerHand self ≡ₚ unshuffled.
Proof.
  intros Hinv.
  destruct (Blackjack_inv_cards self Hinv) as (Hd & Hb & _ & _).
  destruct (Blackjack_inv_sizes self Hinv) as (Hbank & _ & Hdeck).
  destruct Hinv as (Hperm & _ & _).
  pose proof (Hand_value_from_2 _ Hb) as Hbv.
  destruct (takeCardsUntilValue_loop_draws (S (length (deck self))) 17
              (deck self) (bankHand self))
    as (drawn & d' & Hloop & Hdeck' & Hval & Hfirst); [exact Hd|lia|lia|].
  exists drawn, d'. split; [exact Hdeck'|]. split; [exact Hloop|].
  split; [exact Hval|]. split; [exact Hfirst|].
  assert (Hdrawn : from_2 drawn).
  { rewrite Hdeck' in Hd. apply Forall_app in Hd as [_ Hd].
    unfold from_2. by rewrite <- (reverse_Permutation drawn). }
  split.
  - destruct (snoc_cases drawn) as [->|(p & c & ->)].
    + rewrite app_nil_r. lia.
    + specialize (Hfirst (length p)).
      rewrite length_app in Hfirst. cbn [length] in Hfirst.
      specialize (Hfirst ltac:(lia)).
      rewrite take_app_length in Hfirst.
      assert (Hp : from_2 (bankHand self ++ p)).
      { apply Forall_app. split; [exact Hb|].
        by apply Forall_app in Hdrawn as [Hp _]. }
      apply Hand_value_from_2 in Hp.
      rewrite !length_app in *. cbn [length]. lia.
  - rewrite <- Hperm, Hdeck'.
    rewrite <- !app_assoc. f_equiv.
    rewrite (reverse_Permutation drawn).
    rewrite !app_assoc. f_equiv. apply Permutation_app_comm.
Qed.

Lemma Blackjack_reachable_inv (self : Blackjack) :
  Blackjack_reachable self -> Blackjack_inv self.
Proof.
  induction 1 as [w self w' Hinit | self answer self' _ IH Hnext].
  - destruct (Blackjack_init_inv w) as (self0 & w0 & Hinit0 & Hinv).
    rewrite Hinit in Hinit0. by injection Hinit0 as -> _.
  - unfold Blackjack_next in Hnext.
    destruct (bool_decide (answer = py "stand")).
    { destruct (takeCardsUntilValue _ _); exc_step; discriminate. }
    destruct (bool_decide (answer = py "hit")); [|by injection Hnext as <-].
    destruct (Blackjack_inv_hit self IH) as (c & d' & Hdeck & Hc & Htake & Hperm).
    rewrite Htake in Hnext. exc_step.
    destruct (bool_decide (Hand_value (playerHand self ++ [c]) > 21)) eqn:E;
      [discriminate|].
    apply bool_decide_eq_false in E.
    injection Hnext as <-.
    split; [exact Hperm|]. split; [apply IH|]. left. cbn [playerHand]. lia.
Qed.

Lemma hit_is_not_stand : py "hit" <> py "stand".
Proof. by vm_compute. Qed.

(** C7: on "hit" in a game that a session can be in, the player draws the
    last card of the deck and the value of the player's hand goes up by the
    value of that card, which is positive. Above 21 the call returns the
    finished state of [end] on the game as it is then, the bank's hand
    being as before; up to 21 it returns the game itself, still to be
    played. *)
Theorem Blackjack_hit (self : Blackjack) :
  Blackjack_reachable self ->
  exists c d',
    deck self = d' ++ [c]
    /\ let self' := mkBlackjack d' (bankHand self) (playerHand self ++ [c]) in
       Hand_value (playerHand self') = Hand_value (playerHand self) + value c
       /\ Hand_value (playerHand self) < Hand_value (playerHand self')
       /\ (Hand_value (playerHand self') > 21 ->
           Blackjack_next self (py "hit") = Ok (self', Blackjack_end self')
           /\ done (Blackjack_end self') = true)
       /\ (Hand_value (playerHand self') <= 21 ->
           Blackjack_next self (py "hit") = Ok (self', BlackjackGame self')
           /\ done (BlackjackGame self') = false).
Proof.
  intros Hinv%Blackjack_reachable_inv.
  destruct (Blackjack_inv_hit self Hinv) as (c & d' & Hdeck & Hc & Htake & _).
  exists c, d'. split; [exact Hdeck|].
  cbv zeta. cbn [playerHand]. rewrite Hand_value_snoc.
  split; [reflexivity|]. split; [lia|].
  assert (Hnext : Blackjack_next self (py "hit")
                  = let self' := mkBlackjack d' (bankHand self) (playerHand self ++ [c]) in
                    if bool_decide (Hand_value (playerHand self') > 21)
                    then Ok (self', Blackjack_end self')
                    else Ok (self', BlackjackGame self')).
  { unfold Blackjack_next.
    rewrite (bool_decide_eq_false_2 _ hit_is_not_stand).
    rewrite (bool_decide_eq_true_2 _ eq_refl).
    rewrite Htake. reflexivity. }
  rewrite Hnext. cbv zeta. cbn [playerHand]. rewrite Hand_value_snoc.
  split; intros Hv.
  - by rewrite (bool_decide_eq_true_2 _ Hv).
  - rewrite bool_decide_eq_false_2 by lia. done.
Qed.

(** C8: on "stand" in a game that a session can be in, the bank draws cards
    from the end of the deck for as long as the value of its hand is below
    17, and the call returns the finished state of [end] on the game as it
    is then: the value of the bank's hand is 17 or more, and it was below 17
    before each card drawn. *)
Theorem Blackjack_stand (self : Blackjack) :
  Blackjack_reachable self ->
  exists drawn d',
    deck self = d' ++ reverse drawn
    /\ let self' := mkBlackjack d' (bankHand self ++ drawn) (playerHand self) in
       Blackjack_next self (py "stand") = Ok (self', Blackjack_end self')
       /\ done (Blackjack_end self') = true
       /\ 17 <= Hand_value (bankHand self')
       /\ forall n, (n < length drawn)%nat ->
            Hand_value (bankHand self ++ take n drawn) < 17.
Proof.
  intros Hinv%Blackjack_reachable_inv.
  destruct (Blackjack_inv_stand self Hinv)
    as (drawn & d' & Hdeck & Hloop & Hval & Hfirst & _).
  exists drawn, d'. split; [exact Hdeck|].
  cbv zeta. cbn [bankHand].
  split; [|by repeat split].
  unfold Blackjack_next.
  rewrite (bool_decide_eq_true_2 _ eq_refl), Hloop. reflexivity.
Qed.


Lemma first_game_reachable : Blackjack_reachable first_game.
Proof.
  apply (reachable_init (World_init (fun _ => 0%nat)) first_game
           (mkWorld {[ Hangman_default_guessed := ∅ ]} [] (fun _ => 0%nat) 50)).
  vm_compute. reflexivity.
Defined.

Lemma Blackjack_hit_witness :
  exists c d',
    deck first_game = d' ++ [c]
    /\ Hand_value (playerHand first_game)
       < Hand_value (playerHand first_game ++ [c]).
Proof.
  destruct (Blackjack_hit first_game first_game_reachable)
    as (c & d' & Hdeck & _ & Hup & _).
  exists c, d'. split; [exact Hdeck | exact Hup].
Defined.

Lemma Blackjack_stand_witness :
  exists drawn d',
    Blackjack_next first_game (py "stand")
    = Ok (mkBlackjack d' (bankHand first_game ++ drawn) (playerHand first_game),
          Blackjack_end
            (mkBlackjack d' (bankHand first_game ++ drawn) (playerHand first_game)))
    /\ 17 <= Hand_value (bankHand first_game ++ drawn).
Proof.
  destruct (Blackjack_stand first_game first_game_reachable)
    as (drawn & d' & _ & Hnext & _ & Hval & _).
  exists drawn, d'. split; [exact Hnext | exact Hval].
Defined.

(** ** Blackjack: a whole session *)

(** One call of [next] on a game in play: it returns, the hands stay small,
    and the game that goes on is in play again. *)
Lemma Blackjack_next_inv (self : Blackjack) (answer : str) :
  Blackjack_inv self ->
  exists self' game,
    Blackjack_next self answer = Ok (self', game)
    /\ deck self' ++ bankHand self' ++ playerHand self' ≡ₚ unshuffled
    /\ (length (bankHand self') <= 9)%nat
    /\ (length (playerHand self') <= 11)%nat
    /\ ((game = BlackjackGame self' /\ Blackjack_inv self')
        \/ exists message, game = FinishedGame message).
Proof.
  intros Hinv.
  destruct (Blackjack_inv_sizes self Hinv) as (Hbank & Hplayer & _).
  unfold Blackjack_next.
  destruct (bool_decide (answer = py "stand")).
  { destruct (Blackjack_inv_stand self Hinv)
      as (drawn & d' & _ & Hloop & _ & _ & Hsize & Hperm).
    rewrite Hloop. exc_step. eexists _, _. split; [reflexivity|].
    cbn [deck bankHand playerHand].
    split; [exact Hperm|]. split; [exact Hsize|]. split; [lia|].
    right. unfold Blackjack_end. eauto. }
  destruct (bool_decide (answer = py "hit")).
  - destruct (Blackjack_inv_hit self Hinv) as (c & d' & _ & _ & Htake & Hperm).
    rewrite Htake. exc_step.
    assert (Hsize : (length (playerHand self ++ [c]) <= 11)%nat)
      by (rewrite length_app; cbn [length]; lia).
    destruct (bool_decide (Hand_value (playerHand self ++ [c]) > 21)) eqn:E;
      eexists _, _; (split; [reflexivity|]); cbn [deck bankHand playerHand];
      (split; [exact Hperm|]); (split; [lia|]); (split; [exact Hsize|]).
    + right. unfold Blackjack_end. eauto.
    + apply bool_decide_eq_false in E. left. split; [reflexivity|].
      split; [exact Hperm|]. split; [exact Hbank|]. left. cbn [playerHand]. lia.
  - exists self, (BlackjackGame self). split; [reflexivity|].
    split; [apply Hinv|]. split; [lia|]. split; [lia|]. left. by split.
Qed.

Lemma Blackjack_play_inv (inputs : list str) :
  forall self : Blackjack,
    Blackjack_inv self ->
    exists self' game,
      Blackjack_play self inputs = Ok (self', game)
      /\ deck self' ++ bankHand self' ++ playerHand self' ≡ₚ unshuffled
      /\ (length (bankHand self') <= 9)%nat
      /\ (length (playerHand self') <= 11)%nat.
Proof.
  induction inputs as [|answer inputs IH]; intros self Hinv.
  - destruct (Blackjack_inv_sizes self Hinv) as (Hbank & Hplayer & _).
    exists self, (BlackjackGame self). split; [reflexivity|].
    split; [apply Hinv|]. lia.
  - cbn [Blackjack_play]. destruct answer as [|c answer]; [by apply IH|].
    destruct (Blackjack_next_inv self (c :: answer) Hinv)
      as (self' & game & Hnext & Hperm & Hbank & Hplayer & Hgame).
    rewrite Hnext. cbn [Exc_bind fst snd].
    destruct Hgame as [[-> Hinv']|[message ->]]; cbn [done].
    + by apply IH.
    + by exists self', (FinishedGame message).
Qed.

Lemma next_BlackjackGame (lower : str -> str) (self self' : Blackjack)
    (answer : str) (game : GameState) (w : World) :
  Blackjack_next self answer = Ok (self', game) ->
  next lower (BlackjackGame self) answer w = Ok (game, w).
Proof. intros Hnext. cbn [next]. unfold bind, lift. by rewrite Hnext. Qed.

Lemma run_BlackjackGame_step (lower : str -> str) (self self' : Blackjack)
    (c : N) (answer : str) (inputs : list str) (game : GameState) (w : World) :
  Blackjack_next self (c :: answer) = Ok (self', game) ->
  run lower (BlackjackGame self) ((c :: answer) :: inputs) w
  = ((if bool_decide (info game = []) then ret tt else print (info game)) ;;;
     run lower game inputs) w.
Proof.
  intros Hnext. cbn [run done]. unfold bind at 1.
  by rewrite (next_BlackjackGame lower _ _ _ _ w Hnext).
Qed.

Lemma run_Blackjack_returns (lower : str -> str) (inputs : list str) :
  forall (self : Blackjack) (w : World),
    Blackjack_inv self ->
    (exists game w', run lower (BlackjackGame self) inputs w = Ok (game, w'))
    \/ run lower (BlackjackGame self) inputs w = Raise EOFError.
Proof.
  induction inputs as [|answer inputs IH]; intros self w Hinv.
  - by right.
  - destruct answer as [|c answer]; [by apply IH|].
    destruct (Blackjack_next_inv self (c :: answer) Hinv)
      as (self' & game & Hnext & _ & _ & _ & Hgame).
    match goal with
    | |- context [run ?l ?g ?i ?w0] => set (r := run l g i w0)
    end.
    assert (Hr : r = ((if bool_decide (info game = []) then ret tt
                       else print (info game)) ;;;
                      run lower game inputs) w)
      by (by apply run_BlackjackGame_step with self').
    clearbody r. subst r.
    destruct Hgame as [[-> Hinv']|[message ->]]; cbn [info].
    + rewrite (bool_decide_eq_true_2 _ eq_refl). unfold bind, ret. by apply IH.
    + left. destruct (bool_decide (message = [])); unfold bind, ret, print;
        destruct inputs; cbn [run done]; unfold ret; eauto.
Qed.

(** C10: for every random source and every sequence of lines read, making
    the game and playing it on those lines returns without an exception:
    no card is drawn from an empty deck. The two hands then hold 21 cards at
    most, and with the cards left in the deck they are the 51 cards of the
    new deck. The game loop itself raises nothing on these lines but the end
    of the input. *)
Theorem Blackjack_deck_never_exhausted (lower : str -> str) (w : World)
    (inputs : list str) :
  exists self0 w0 self game,
    Blackjack_init w = Ok (self0, w0)
    /\ Blackjack_play self0 inputs = Ok (self, game)
    /\ (length (bankHand self) + length (playerHand self) <= 21)%nat
    /\ (length (deck self) + (length (bankHand self) + length (playerHand self))
        = 51)%nat
    /\ ((exists game' w', run lower (BlackjackGame self0) inputs w0 = Ok (game', w'))
        \/ run lower (BlackjackGame self0) inputs w0 = Raise EOFError).
Proof.
  destruct (Blackjack_init_inv w) as (self0 & w0 & Hinit & Hinv).
  destruct (Blackjack_play_inv inputs self0 Hinv)
    as (self & game & Hplay & Hperm & Hbank & Hplayer).
  exists self0, w0, self, game.
  split; [exact Hinit|]. split; [exact Hplay|]. split; [lia|]. split.
  - apply Permutation_length in Hperm.
    rewrite !length_app, unshuffled_length in Hperm. lia.
  - by apply run_Blackjack_returns.
Qed.

(** * Further properties of the programs *)

(** ** The text helpers *)

Lemma getitem_nonneg {A} (l : list A) (i : Z) (x : A) :
  0 <= i -> l !! Z.to_nat i = Some x -> getitem l i = Ok x.
Proof.
  intros Hi Hx. unfold getitem.
  pose proof (lookup_lt_Some _ _ _ Hx) as Hlt.
  rewrite (proj2 (Z.ltb_ge i 0)) by lia.
  rewrite (proj2 (Z.leb_le 0 i)) by lia.
  rewrite (proj2 (Z.ltb_lt _ _)) by lia.
  cbn [andb]. by rewrite Hx.
Qed.

Lemma getitem_last {A} (l : list A) (x : A) : getitem (l ++ [x]) (-1) = Ok x.
Proof.
  unfold getitem. rewrite length_app. cbn [length].
  change (-1 <? 0) with true. cbv iota.
  rewrite (proj2 (Z.leb_le 0 _)) by lia.
  rewrite (proj2 (Z.ltb_lt _ _)) by lia.
  cbn [andb].
  replace (Z.to_nat (-1 + Z.of_nat (length l + 1))) with (length l) by lia.
  by rewrite list_lookup_middle.
Qed.

Lemma getitem_nil {A} (i : Z) : getitem (@nil A) i = Raise IndexError.
Proof.
  unfold getitem. cbn [length].
  destruct (i <? 0) eqn:E.
  - apply Z.ltb_lt in E. rewrite (proj2 (Z.leb_gt 0 _)) by lia. reflexivity.
  - apply Z.ltb_ge in E. rewrite (proj2 (Z.ltb_ge _ _)) by lia.
    by rewrite andb_false_r.
Qed.

(** X1: [pluralize] never raises and returns one of its variants: the
    variant at index [n - 1] when [n] is between 1 and their number, and the
    last variant for every other [n], zero and the negative numbers
    included. *)
Theorem pluralize_variant (n : Z) (singular : str) (plurals : list str) :
  let v := singular :: plurals in
  exists s,
    pluralize n singular plurals = Ok s
    /\ s ∈ v
    /\ (if decide (1 <= n <= Z.of_nat (length v))
        then v !! Z.to_nat (n - 1) = Some s
        else list.last v = Some s).
Proof.
  intros v. unfold pluralize. fold v.
  destruct (decide (1 <= n <= Z.of_nat (length v))) as [Hn|Hn].
  - rewrite !bool_decide_eq_true_2 by lia. cbn [andb].
    destruct (v !! Z.to_nat (n - 1)) as [s|] eqn:Hs.
    + exists s. split; [apply getitem_nonneg; [lia | exact Hs]|].
      split; [by eapply list_elem_of_lookup_2 | reflexivity].
    + apply lookup_ge_None in Hs. lia.
  - assert (Hcond : bool_decide (n >= 1) && bool_decide (n <= Z.of_nat (length v))
                    = false).
    { destruct (bool_decide (n >= 1)) eqn:E1; [|reflexivity].
      apply bool_decide_eq_true in E1. cbn [andb].
      apply bool_decide_eq_false. lia. }
    rewrite Hcond.
    destruct (snoc_cases v) as [Hv|(v' & s & Hv)]; [discriminate Hv|].
    exists s. rewrite Hv. split; [apply getitem_last|].
    split; [apply elem_of_app; right; by left | apply last_snoc].
Qed.

(** X2: [naturalchoice] raises [IndexError] on the empty list; on any other
    list it joins all alternatives but the last with a comma and a space and
    appends the separator and the last one, so that a single alternative
    comes out with the separator before it. *)
Theorem naturalchoice_text (sep : str) :
  naturalchoice [] sep = Raise IndexError
  /\ (forall a, naturalchoice [a] sep = Ok (sep ++ a))
  /\ forall upToLast last,
       naturalchoice (upToLast ++ [last]) sep
       = Ok (join (py ", ") upToLast ++ sep ++ last).
Proof.
  assert (Hgen : forall upToLast last,
             naturalchoice (upToLast ++ [last]) sep
             = Ok (join (py ", ") upToLast ++ sep ++ last)).
  { intros upToLast last. unfold naturalchoice.
    rewrite getitem_last. cbn [Exc_bind].
    rewrite length_app. cbn [length].
    replace (length upToLast + 1 - 1)%nat with (length upToLast) by lia.
    by rewrite take_app_length. }
  split; [reflexivity|]. split; [|exact Hgen].
  intros a. exact (Hgen [] a).
Qed.

Example RockScissorPaper_prompt_text :
  RockScissorPaper_prompt = Ok (py "Välj något av sten, sax eller påse: ").
Proof. reflexivity. Qed.

(** ** The game loop with its prompts *)

Lemma pluralize_two (n : Z) (one many : str) :
  pluralize n one [many] = Ok (if decide (n = 1) then one else many).
Proof.
  unfold pluralize. cbn [length].
  destruct (decide (n = 1)) as [->|Hn1]; [reflexivity|].
  destruct (decide (n = 2)) as [->|Hn2]; [reflexivity|].
  destruct (bool_decide (n >= 1)) eqn:E1; [|reflexivity].
  apply bool_decide_eq_true in E1.
  rewrite bool_decide_eq_false_2 by lia. reflexivity.
Qed.

Lemma Blackjack_prompt_returns (self : Blackjack) :
  length (bankHand self) = 2%nat -> exists p, Blackjack_prompt self = Ok p.
Proof.
  intros Hlen. unfold Blackjack_prompt.
  destruct (bankHand self) as [|shown [|hidden [|]]]; try discriminate Hlen.
  eexists. reflexivity.
Qed.

Lemma RockScissorPaper_next_returns (answer : str) (w : World) :
  exists game w',
    RockScissorPaper_next answer w = Ok (game, w')
    /\ heap w' = heap w
    /\ (game = RockScissorPaper \/ exists message, game = FinishedGame message).
Proof.
  unfold RockScissorPaper_next.
  destruct (bool_decide (answer ∉ alternatives)) eqn:E.
  { exists RockScissorPaper, w. split; [reflexivity|]. split; [reflexivity|]. by left. }
  apply bool_decide_eq_false in E.
  assert (Hin : answer ∈ alternatives) by (by destruct (decide (answer ∈ alternatives))).
  assert (Hc : (rng w (rpos w) mod 3 < 3)%nat) by (apply Nat.mod_upper_bound; lia).
  assert (Hstep : forall u, index answer alternatives = Ok u ->
            (userChoiceIndex <- lift (index answer alternatives) ;;
             computerChoiceIndex <- randint 0 (Z.of_nat (length alternatives) - 1) ;;
             computerChoice <- lift (getitem alternatives computerChoiceIndex) ;;
             if bool_decide (computerChoiceIndex = userChoiceIndex)
             then ret (FinishedGame (py "Oavgjort"))
             else
               beaten <- lift (getitem winsOver userChoiceIndex) ;;
               if bool_decide (beaten = computerChoiceIndex)
               then ret (FinishedGame (py "Du vann mot " ++ computerChoice))
               else ret (FinishedGame (py "Du förlorar mot " ++ computerChoice))) w
            = (computerChoice <- lift (getitem alternatives
                                         (Z.of_nat (rng w (rpos w) mod 3))) ;;
               if bool_decide (Z.of_nat (rng w (rpos w) mod 3) = u)
               then ret (FinishedGame (py "Oavgjort"))
               else
                 beaten <- lift (getitem winsOver u) ;;
                 if bool_decide (beaten = Z.of_nat (rng w (rpos w) mod 3))
                 then ret (FinishedGame (py "Du vann mot " ++ computerChoice))
                 else ret (FinishedGame (py "Du förlorar mot " ++ computerChoice)))
                (mkWorld (heap w) (stdout w) (rng w) (S (rpos w)))).
  { intros u Hu. unfold bind at 1. unfold lift at 1. rewrite Hu.
    unfold bind at 1. rewrite randint_draw. reflexivity. }
  destruct (alternatives_cases answer Hin) as [->|[->| ->]];
    [ rewrite (Hstep 0 eq_refl) | rewrite (Hstep 1 eq_refl)
    | rewrite (Hstep 2 eq_refl) ];
    clear Hstep;
    (destruct (rng w (rpos w) mod 3)%nat as [|[|[|c]]]; [| | |lia]);
    eexists _, _; (split; [reflexivity|]); (split; [reflexivity|]);
    right; eauto.
Qed.

Section LoopProperties.

Variable lower : str -> str.

Lemma maskedWord_eq (self : Hangman) (w : World) (G : gset N) :
  heap w !! guessed self = Some G ->
  maskedWord lower self w
  = Ok (concat (map (fun c => if in_guessed (lower [c]) G then [c] else py "_")
                    (word self)), w).
Proof. intros HG. unfold maskedWord, bind, deref. by rewrite HG. Qed.

Lemma Hangman_prompt_returns (self : Hangman) (w : World) :
  is_Some (heap w !! guessed self) ->
  exists p, Hangman_prompt lower self w = Ok (p, w).
Proof.
  intros [G HG]. unfold Hangman_prompt. unfold bind at 1.
  rewrite (maskedWord_eq self w G HG).
  unfold bind, lift. rewrite pluralize_two. eexists. reflexivity.
Qed.

Lemma prompt_playable (game : GameState) (w : World) :
  playable game w -> exists p, prompt lower game w = Ok (p, w).
Proof.
  destruct game as [message|h| |b]; cbn [playable prompt]; intros Hplay.
  - by eexists.
  - by apply Hangman_prompt_returns.
  - by eexists.
  - destruct (Blackjack_prompt_returns b (proj1 (proj2 Hplay))) as [p Hp].
    exists p. unfold lift. by rewrite Hp.
Qed.

Lemma run_io_done (game : GameState) (inputs : list str) (w : World) :
  done game = true -> run_io lower game inputs w = Ok ((game, inputs), w).
Proof. intros Hdone. destruct inputs; cbn [run_io]; by rewrite Hdone. Qed.

Lemma run_io_eof (game : GameState) (w : World) (p : str) :
  done game = false -> prompt lower game w = Ok (p, w) ->
  run_io lower game [] w = Raise EOFError.
Proof.
  intros Hdone Hp. cbn [run_io]. rewrite Hdone. unfold bind. by rewrite Hp.
Qed.

Lemma run_io_skip (game : GameState) (answer : str) (inputs : list str)
    (w : World) (p : str) :
  done game = false -> prompt lower game w = Ok (p, w) ->
  answer = [] ->
  run_io lower game (answer :: inputs) w = run_io lower game inputs w.
Proof.
  intros Hdone Hp ->. cbn [run_io]. rewrite Hdone. unfold bind at 1.
  by rewrite Hp.
Qed.

Lemma run_io_step (game game' : GameState) (answer : str) (inputs : list str)
    (w w' : World) (p : str) :
  done game = false -> prompt lower game w = Ok (p, w) ->
  answer <> [] ->
  next lower game answer w = Ok (game', w') ->
  run_io lower game (answer :: inputs) w
  = ((if bool_decide (info game' = []) then ret tt else print (info game')) ;;;
     run_io lower game' inputs) w'.
Proof.
  intros Hdone Hp Hne Hnext. cbn [run_io]. rewrite Hdone.
  unfold bind at 1. rewrite Hp.
  destruct answer as [|c answer]; [done|].
  unfold bind at 1. by rewrite Hnext.
Qed.

End LoopProperties.

Lemma returns_or_EOF_bind {A B} (P : A -> World -> Prop) (Q : B -> World -> Prop)
    (c : M A) (k : A -> M B) (w : World) :
  returns_or_EOF P (c w) ->
  (forall a w1, P a w1 -> returns_or_EOF Q (k a w1)) ->
  returns_or_EOF Q (bind c k w).
Proof.
  intros Hc Hk. unfold bind. destruct (c w) as [[a w1]|e]; [by apply Hk | exact Hc].
Qed.

Lemma returns_or_EOF_impl {A} (P Q : A -> World -> Prop) (r : Exc (A * World)) :
  returns_or_EOF P r -> (forall a w1, P a w1 -> Q a w1) -> returns_or_EOF Q r.
Proof. destruct r as [[a w1]|e]; cbn; auto. Qed.

Lemma playable_heap (game : GameState) (w1 w2 : World) :
  heap w1 = heap w2 -> playable game w1 -> playable game w2.
Proof. destruct game; cbn [playable]; intros Hheap; by rewrite <- ?Hheap. Qed.

Lemma info_printed {A} (game : GameState) (k : M A) (w : World) :
  exists w1,
    heap w1 = heap w
    /\ ((if bool_decide (info game = []) then ret tt else print (info game)) ;;; k) w
       = k w1.
Proof.
  destruct (bool_decide (info game = [])); unfold bind, ret, print;
    eexists; (split; [|reflexivity]); reflexivity.
Qed.

Section SafeLoop.

Variable lower : str -> str.

(** Lowering a text that is not empty gives a text that is not empty. *)
Hypothesis lower_nonempty : forall s : str, s <> [] -> lower s <> [].

Lemma next_playable (game : GameState) (answer : str) (w : World) :
  playable game w -> answer <> [] ->
  exists game' w',
    next lower game answer w = Ok (game', w')
    /\ playable game' w' /\ heap_kept w w'.
Proof.
  intros Hplay Hne.
  assert (Hgoal : exists game' w',
             next lower game answer w = Ok (game', w') /\ playable game' w').
  { destruct game as [message|h| |b]; cbn [playable next] in *.
    - by eexists _, _.
    - destruct Hplay as [G HG].
      destruct (lower answer) as [|c rest] eqn:Hc;
        [by destruct (lower_nonempty answer Hne)|].
      rewrite (Hangman_next_eq lower h answer w G c rest Hc HG).
      eexists _, _. split; [reflexivity|].
      destruct (foundWord _ _ _); [done|].
      destruct (bool_decide _); [done|].
      cbn [playable guessed world_after_guess heap].
      rewrite lookup_insert_eq. by eexists.
    - destruct (RockScissorPaper_next_returns answer w)
        as (game' & w' & Hnext & _ & [->|[message ->]]); by eexists _, _.
    - destruct (Blackjack_next_inv b answer Hplay)
        as (b' & game' & Hnext & _ & _ & _ & Hgame).
      exists game', w.
      split; [exact (next_BlackjackGame lower _ _ _ _ w Hnext)|].
      by destruct Hgame as [[-> Hinv]|[message ->]]. }
  destruct Hgoal as (game' & w' & Hnext & Hplay').
  exists game', w'. split; [exact Hnext|]. split; [exact Hplay'|].
  exact (keeps_sets_next lower game answer w game' w' Hnext).
Qed.

Lemma run_io_playable (inputs : list str) :
  forall (game : GameState) (w : World),
    playable game w ->
    returns_or_EOF
      (fun r w' => done (fst r) = true /\ heap_kept w w'
                   /\ snd r `suffix_of` inputs)
      (run_io lower game inputs w).
Proof.
  induction inputs as [|answer inputs IH]; intros game w Hplay.
  all: destruct (done game) eqn:Hdone;
    [rewrite (run_io_done lower game _ w Hdone); cbn [returns_or_EOF fst snd];
     split; [exact Hdone|]; split; [by intros l S Hl | done]|].
  all: destruct (prompt_playable lower game w Hplay) as [p Hp].
  - by rewrite (run_io_eof lower game w p Hdone Hp).
  - destruct (decide (answer = [])) as [He|Hne].
    + rewrite (run_io_skip lower game answer inputs w p Hdone Hp He).
      eapply returns_or_EOF_impl; [by apply IH|].
      intros r w1 (? & ? & ?). repeat split; auto. by apply suffix_cons_r.
    + destruct (next_playable game answer w Hplay Hne)
        as (game' & w' & Hnext & Hplay' & Hkept).
      rewrite (run_io_step lower game game' answer inputs w w' p Hdone Hp Hne Hnext).
      destruct (info_printed game' (run_io lower game' inputs) w')
        as (w1 & Hheap & ->).
      eapply returns_or_EOF_impl;
        [apply IH; by apply (playable_heap game' w' w1)|].
      intros r w2 (Hd & Hkept2 & Hsuffix).
      split; [exact Hd|]. split; [|by apply suffix_cons_r].
      intros l S Hl. apply Hkept2. rewrite Hheap. by apply Hkept.
Qed.

End SafeLoop.

(** ** The menu and the main programs *)

Lemma keeps_sets_shuffle_from {A} (i : nat) :
  forall x : list A, keeps_sets (shuffle_from i x).
Proof.
  induction i as [|i IH]; intros x; cbn [shuffle_from].
  - apply keeps_sets_ret.
  - apply keeps_sets_bind; [apply keeps_sets_randbelow | intros j; apply IH].
Qed.

Lemma keeps_sets_Blackjack_init : keeps_sets Blackjack_init.
Proof.
  unfold Blackjack_init, BlackjackDeck_init, shuffle.
  apply keeps_sets_bind; [apply keeps_sets_shuffle_from | intros deck0].
  apply keeps_sets_lift.
Qed.

Lemma choice_returns {A} (seq : list A) (w : World) :
  seq <> [] ->
  exists x,
    x ∈ seq
    /\ choice seq w = Ok (x, mkWorld (heap w) (stdout w) (rng w) (S (rpos w))).
Proof.
  intros Hne. destruct seq as [|x0 seq]; [done|].
  unfold choice, bind, randbelow.
  destruct ((x0 :: seq) !! (rng w (rpos w) mod length (x0 :: seq))%nat)
    as [x|] eqn:Hx.
  - exists x. split; [by eapply list_elem_of_lookup_2 | reflexivity].
  - apply lookup_ge_None in Hx.
    pose proof (Nat.mod_upper_bound (rng w (rpos w)) (length (x0 :: seq))) as Hlt.
    cbn [length] in *. lia.
Qed.

Section SafePrograms.

Variable lower : str -> str.

(** Lowering a text that is not empty gives a text that is not empty. *)
Hypothesis lower_nonempty : forall s : str, s <> [] -> lower s <> [].

Let default_kept (w : World) : Prop :=
  is_Some (heap w !! Hangman_default_guessed).

Lemma run_inside_menu (game : GameState) (inputs : list str) (w : World) :
  playable game w -> default_kept w ->
  returns_or_EOF
    (fun rest w' => default_kept w' /\ rest `suffix_of` inputs)
    ((r <- run_io lower game inputs ;; ret (snd r)) w).
Proof.
  intros Hplay [S HS].
  eapply returns_or_EOF_bind;
    [exact (run_io_playable lower lower_nonempty inputs game w Hplay)|].
  intros r w1 (_ & Hkept & Hsuffix). cbn. split; [|exact Hsuffix].
  exists S. by apply Hkept.
Qed.

Lemma Menu_next_safe (answer : str) (inputs : list str) (w : World) :
  default_kept w ->
  returns_or_EOF
    (fun r w' =>
       fst r = (if bool_decide (answer = py "x")
                then NotMenu (FinishedGame []) else Menu)
       /\ default_kept w' /\ snd r `suffix_of` inputs)
    (Menu_next lower answer inputs w).
Proof.
  intros Hdefault. unfold Menu_next.
  apply (returns_or_EOF_bind (fun _ w1 => default_kept w1)); [exact Hdefault|].
  intros _ w1 H1.
  apply (returns_or_EOF_bind
           (fun rest w' => default_kept w' /\ rest `suffix_of` inputs)).
  { destruct (bool_decide (answer = py "1")); [|by cbn].
    apply (returns_or_EOF_bind (fun b w' => Blackjack_inv b /\ default_kept w')).
    - destruct (Blackjack_init_inv w1) as (b & w2 & Hinit & Hinv).
      rewrite Hinit. cbn. split; [exact Hinv|].
      destruct H1 as [S HS]. exists S.
      exact (keeps_sets_Blackjack_init w1 b w2 Hinit _ _ HS).
    - intros b w2 [Hinv H2]. by apply run_inside_menu. }
  intros inputs1 w2 [H2 Hsuffix1].
  apply (returns_or_EOF_bind
           (fun rest w' => default_kept w' /\ rest `suffix_of` inputs)).
  { destruct (bool_decide (answer = py "2")); [|by cbn].
    apply (returns_or_EOF_bind
             (fun h w' => guessed h = Hangman_default_guessed /\ default_kept w')).
    - unfold Hangman_create, bind.
      destruct (choice_returns words w2) as (word0 & _ & ->); [done|].
      cbn. by split.
    - intros h w3 [Hh H3].
      eapply returns_or_EOF_impl.
      + apply run_inside_menu; [|exact H3]. cbn [playable]. by rewrite Hh.
      + intros rest w4 [H4 Hsuffix]. split; [exact H4 | by etrans]. }
  intros inputs2 w3 [H3 Hsuffix2].
  apply (returns_or_EOF_bind
           (fun rest w' => default_kept w' /\ rest `suffix_of` inputs)).
  { destruct (bool_decide (answer = py "3")); [|by cbn].
    eapply returns_or_EOF_impl.
    + by apply run_inside_menu.
    + intros rest w4 [H4 Hsuffix]. split; [exact H4 | by etrans]. }
  intros inputs3 w4 [H4 Hsuffix3].
  destruct (bool_decide (answer = py "x")); cbn; by repeat split.
Qed.

Lemma Menu_next_x (inputs : list str) (w : World) :
  Menu_next lower (py "x") inputs w
  = Ok ((NotMenu (FinishedGame []), inputs), printed (py "x") w).
Proof.
  unfold Menu_next.
  rewrite (bool_decide_eq_false_2 (py "x" = py "1")) by (by vm_compute).
  rewrite (bool_decide_eq_false_2 (py "x" = py "2")) by (by vm_compute).
  rewrite (bool_decide_eq_false_2 (py "x" = py "3")) by (by vm_compute).
  rewrite (bool_decide_eq_true_2 (py "x" = py "x")) by reflexivity.
  reflexivity.
Qed.

Lemma Menu_run_loop_safe (fuel : nat) :
  forall (inputs : list str) (w : World),
    (length inputs < fuel)%nat -> default_kept w ->
    returns_or_EOF
      (fun r w' => fst r = FinishedGame []
                   /\ snd r `suffix_of` inputs
                   /\ (length (snd r) < length inputs)%nat
                   /\ py "x" ∈ inputs
                   /\ exists read w0,
                        inputs = read ++ py "x" :: snd r
                        /\ w' = printed (py "x") w0)
      (Menu_run_loop lower fuel inputs w).
Proof.
  induction fuel as [|fuel IH]; intros inputs w Hfuel Hdefault; [lia|].
  destruct inputs as [|answer inputs]; [reflexivity|].
  cbn [Menu_run_loop length] in *.
  destruct answer as [|c answer].
  { eapply returns_or_EOF_impl; [apply IH; [lia | exact Hdefault]|].
    intros r w1 (Hr & Hsuffix & Hlen & Hx & read & w0 & Hread & Hw0).
    split; [exact Hr|]. split; [by apply suffix_cons_r|].
    split; [lia|]. split; [by right|].
    exists ([] :: read), w0. split; [|exact Hw0].
    rewrite Hread at 1. reflexivity. }
  destruct (decide (c :: answer = py "x")) as [He|Hne].
  - rewrite He. unfold bind at 1. rewrite Menu_next_x.
    cbn [fst snd info]. rewrite (bool_decide_eq_true_2 _ eq_refl).
    unfold bind, ret.
    rewrite (run_io_done lower (FinishedGame []) inputs _ eq_refl).
    cbn [returns_or_EOF fst snd].
    split; [reflexivity|]. split; [by apply suffix_cons_r|].
    split; [lia|]. split; [by left|].
    by exists [], w.
  - apply (returns_or_EOF_bind _ _ _ _ _
             (Menu_next_safe (c :: answer) inputs w Hdefault)).
    intros [state rest] w1 (Hstate & H1 & Hsuffix). cbn [fst snd] in *.
    pose proof (suffix_length _ _ Hsuffix) as Hlen.
    rewrite (bool_decide_eq_false_2 _ Hne) in Hstate. subst state.
    eapply returns_or_EOF_impl; [apply IH; [lia | exact H1]|].
    intros r w2 (Hr & Hsuffix2 & Hlen2 & Hx & read & w0 & Hread & Hw0).
    split; [exact Hr|]. split; [apply suffix_cons_r; by etrans|].
    split; [lia|].
    destruct Hsuffix as [k Hk].
    split; [right; rewrite Hk; apply elem_of_app; by right|].
    exists ((c :: answer) :: k ++ read), w0. split; [|exact Hw0].
    rewrite Hk, Hread. cbn [app]. by rewrite app_assoc.
Qed.

End SafePrograms.

(** ** Hangman: whole games *)

Lemma found_message_nonempty (word : str) : found_message word <> [].
Proof. intros H. apply app_eq_nil in H as [H _]. by vm_compute in H. Qed.

Lemma not_found_message_nonempty (word : str) : not_found_message word <> [].
Proof. intros H. apply app_eq_nil in H as [H _]. by vm_compute in H. Qed.

Section HangmanGames.

Variable lower : str -> str.

(** One line of the loop on a game of hangman. *)
Lemma run_io_Hangman_step (h : Hangman) (answer : str) (inputs : list str)
    (w : World) (G : gset N) (c : N) (rest : str) :
  heap w !! guessed h = Some G ->
  answer <> [] ->
  lower answer = c :: rest ->
  run_io lower (HangmanGame h) (answer :: inputs) w
  = let w1 := world_after_guess lower h G c w in
    if foundWord lower h (G ∪ {[ c ]})
    then Ok ((FinishedGame (found_message (word h)), inputs),
             printed (found_message (word h)) w1)
    else if bool_decide (gl lower h G c < 1)
         then Ok ((FinishedGame (not_found_message (word h)), inputs),
                  printed (not_found_message (word h)) w1)
         else run_io lower
                (HangmanGame (mkHangman (gl lower h G c) (word h)
                                        (fresh (dom (heap w)))))
                inputs w1.
Proof.
  intros HG Hne Hc.
  destruct (Hangman_prompt_returns lower h w (ex_intro _ G HG)) as [p Hp].
  rewrite (run_io_step lower (HangmanGame h) _ answer inputs w _ p eq_refl Hp Hne
             (Hangman_next_eq lower h answer w G c rest Hc HG)).
  cbv zeta. fold (found_message (word h)) (not_found_message (word h)).
  destruct (foundWord lower h (G ∪ {[ c ]})).
  { cbn [info]. rewrite (bool_decide_eq_false_2 _ (found_message_nonempty _)).
    unfold bind, print. by rewrite run_io_done. }
  destruct (bool_decide (gl lower h G c < 1)).
  { cbn [info]. rewrite (bool_decide_eq_false_2 _ (not_found_message_nonempty _)).
    unfold bind, print. by rewrite run_io_done. }
  cbn [info]. by rewrite (bool_decide_eq_true_2 _ eq_refl).
Qed.

Lemma foundWord_covers (h : Hangman) (g : gset N) :
  foundWord lower h g = true <-> forall x, x ∈ lower (word h) -> x ∈ g.
Proof.
  unfold foundWord. rewrite bool_decide_eq_true, elem_of_subseteq.
  by setoid_rewrite elem_of_list_to_set.
Qed.

Lemma world_after_guess_set (h : Hangman) (G : gset N) (c : N) (w : World) :
  heap (world_after_guess lower h G c w) !! fresh (dom (heap w))
  = Some (G ∪ {[ c ]}).
Proof. cbn [world_after_guess heap]. apply lookup_insert_eq. Qed.

(** X6: guessing letters that are all in the word and that, with the
    letters guessed before, cover the word, wins the game, whatever the
    order and the repetitions, as long as one guess is left at the start:
    the loop returns the finished game of the found word. The letters are
    given in the form that [lower] leaves as it is. *)
Theorem Hangman_right_letters_win (letters : list N) :
  forall (h : Hangman) (w : World) (G : gset N),
    heap w !! guessed h = Some G ->
    1 <= guessesLeft h ->
    letters <> [] ->
    (forall c, c ∈ letters -> c ∈ lower (word h) /\ lower [c] = [c]) ->
    (forall x, x ∈ lower (word h) -> x ∈ G \/ x ∈ letters) ->
    exists rest w',
      run_io lower (HangmanGame h) (map (fun c => [c]) letters) w
      = Ok ((FinishedGame (found_message (word h)), rest), w').
Proof.
  induction letters as [|c letters IH]; intros h w G HG Hgl Hne Hright Hcover;
    [done|].
  destruct (Hright c ltac:(by left)) as [Hc Hlow].
  cbn [map].
  rewrite (run_io_Hangman_step h [c] _ w G c [] HG ltac:(done) Hlow).
  cbv zeta.
  destruct (foundWord lower h (G ∪ {[ c ]})) eqn:Efound; [by eexists _, _|].
  assert (Hgl' : gl lower h G c = guessesLeft h).
  { destruct (gl_cases lower h G c) as [(_ & Hwrong & _)|[_ Hsame]];
      [contradiction | exact Hsame]. }
  rewrite Hgl'. rewrite bool_decide_eq_false_2 by lia.
  apply (IH (mkHangman (guessesLeft h) (word h) (fresh (dom (heap w))))
            _ (G ∪ {[ c ]})).
  - apply world_after_guess_set.
  - exact Hgl.
  - intros ->. apply not_true_iff_false in Efound. apply Efound.
    apply foundWord_covers. intros x Hx.
    destruct (Hcover x Hx) as [HxG|Hxc]; [set_solver|].
    apply list_elem_of_singleton in Hxc. set_solver.
  - intros c' Hc'. apply Hright. by right.
  - intros x Hx. cbn [word].
    destruct (Hcover x Hx) as [HxG|Hxc]; [left; set_solver|].
    apply elem_of_cons in Hxc as [->|Hxl]; [left; set_solver | by right].
Qed.

(** X7: on a word that the letters guessed before do not cover, guessing as
    many different new letters that are not in the word as there are guesses
    left loses the game with the last of them: the loop has read every line
    and returns the finished game of the word not found. *)
Theorem Hangman_wrong_letters_lose (letters : list N) :
  forall (h : Hangman) (w : World) (G : gset N),
    heap w !! guessed h = Some G ->
    letters <> [] ->
    Z.of_nat (length letters) = guessesLeft h ->
    NoDup letters ->
    (forall c, c ∈ letters ->
       (c ∉ lower (word h)) /\ (c ∉ G) /\ lower [c] = [c]) ->
    (exists x, x ∈ lower (word h) /\ x ∉ G) ->
    exists w',
      run_io lower (HangmanGame h) (map (fun c => [c]) letters) w
      = Ok ((FinishedGame (not_found_message (word h)), []), w').
Proof.
  induction letters as [|c letters IH];
    intros h w G HG Hne Hlen Hnodup Hwrong (x & Hx & HxG); [done|].
  destruct (Hwrong c ltac:(by left)) as (Hc & HcG & Hlow).
  apply NoDup_cons in Hnodup as [Hcl Hnodup].
  cbn [map length] in *.
  rewrite (run_io_Hangman_step h [c] _ w G c [] HG ltac:(done) Hlow).
  cbv zeta.
  assert (Hx' : x ∉ G ∪ {[ c ]}) by set_solver.
  destruct (foundWord lower h (G ∪ {[ c ]})) eqn:Efound.
  { destruct Hx'. by apply (proj1 (foundWord_covers h _) Efound). }
  assert (Hgl' : gl lower h G c = guessesLeft h - 1).
  { destruct (gl_cases lower h G c) as [(_ & _ & Hless)|[[?|?] _]];
      [exact Hless | contradiction | contradiction]. }
  rewrite Hgl'.
  destruct letters as [|c' letters].
  - cbn [length] in Hlen. rewrite bool_decide_eq_true_2 by lia. by eexists.
  - cbn [length] in Hlen. rewrite bool_decide_eq_false_2 by lia.
    apply (IH (mkHangman (guessesLeft h - 1) (word h) (fresh (dom (heap w))))
              _ (G ∪ {[ c ]})).
    + apply world_after_guess_set.
    + done.
    + cbn [guessesLeft length]. lia.
    + exact Hnodup.
    + intros c0 Hc0. destruct (Hwrong c0 ltac:(by right)) as (? & ? & ?).
      cbn [word]. repeat split; try assumption. set_solver.
    + exists x. by split.
Qed.

End HangmanGames.

(** ** Hangman: the masked word and the prompt *)

Section HangmanPrompt.

Variable lower : str -> str.

Lemma masked_length (G : gset N) (l : str) :
  length (concat (map (fun c => if in_guessed (lower [c]) G then [c] else py "_") l))
  = length l.
Proof.
  induction l as [|c l IH]; [reflexivity|].
  cbn [map concat]. rewrite length_app, IH.
  by destruct (in_guessed (lower [c]) G).
Qed.

(** X4: on a game whose set is in the heap the prompt is built without an
    exception and without a change of the world: it shows a masked word as
    long as the word, the number of guesses left, and "gissning" when that
    number is 1 and "gissningar" for any other number. *)
Theorem Hangman_prompt_text (h : Hangman) (w : World) :
  is_Some (heap w !! guessed h) ->
  exists masked,
    length masked = length (word h)
    /\ Hangman_prompt lower h w
       = Ok (py "Gissa en bokstav i ordet (" ++ masked ++ py ") ("
             ++ str_of_int (guessesLeft h) ++ py " "
             ++ (if decide (guessesLeft h = 1)
                 then py "gissning" else py "gissningar")
             ++ py " kvar)? ", w).
Proof.
  intros [G HG]. eexists. split; [apply (masked_length G)|].
  unfold Hangman_prompt. unfold bind at 1.
  rewrite (maskedWord_eq lower h w G HG).
  unfold bind, lift. by rewrite pluralize_two.
Qed.

Lemma masked_shown (G : gset N) (l l' : str) :
  lowers_pointwise lower l l' ->
  (forall x, x ∈ l' -> x ∈ G) ->
  concat (map (fun c => if in_guessed (lower [c]) G then [c] else py "_") l) = l.
Proof.
  induction 1 as [|c x l l' Hcx Hrest IH]; intros Hall; [reflexivity|].
  cbn [map concat]. rewrite IH by (intros x' Hx'; apply Hall; by right).
  rewrite Hcx. cbn [in_guessed].
  rewrite bool_decide_eq_true_2 by (apply Hall; by left). reflexivity.
Qed.

Lemma masked_shown_inv (G : gset N) (l l' : str) :
  lowers_pointwise lower l l' ->
  95%N ∉ l ->
  concat (map (fun c => if in_guessed (lower [c]) G then [c] else py "_") l) = l ->
  forall x, x ∈ l' -> x ∈ G.
Proof.
  induction 1 as [|c x l l' Hcx Hrest IH]; intros Hno Hmask x' Hx';
    [by apply elem_of_nil in Hx'|].
  apply not_elem_of_cons in Hno as [Hc95 Hno].
  cbn [map concat] in Hmask. rewrite Hcx in Hmask.
  cbn [in_guessed] in Hmask.
  destruct (bool_decide (x ∈ G)) eqn:E.
  - apply bool_decide_eq_true in E. injection Hmask as Hmask.
    apply elem_of_cons in Hx' as [->|Hx']; [exact E | by apply IH].
  - injection Hmask as H95 _. by destruct Hc95.
Qed.

(** X3: for a word that [lower] lowers position by position, each character
    to the one character that lowering it alone gives, the masked word agrees
    with the test for a found word: it is as long as the word, it is the
    word itself when every letter of the lowered word is in the guessed set,
    and for a word without underscores only then. *)
Theorem Hangman_maskedWord_found (h : Hangman) (w : World) (G : gset N) :
  lowers_pointwise lower (word h) (lower (word h)) ->
  heap w !! guessed h = Some G ->
  exists masked,
    maskedWord lower h w = Ok (masked, w)
    /\ length masked = length (word h)
    /\ (foundWord lower h G = true -> masked = word h)
    /\ ((95%N ∉ word h) -> masked = word h -> foundWord lower h G = true).
Proof.
  intros Hlow HG. eexists. split; [exact (maskedWord_eq lower h w G HG)|].
  split; [apply masked_length|].
  split.
  - intros Hf. apply (masked_shown G _ _ Hlow).
    exact (proj1 (foundWord_covers lower h G) Hf).
  - intros Hno Hmask. apply foundWord_covers.
    exact (masked_shown_inv G _ _ Hlow Hno Hmask).
Qed.

End HangmanPrompt.

Lemma lower_latin1_map (s : str) : lower_latin1 s = map lower_latin1_char s.
Proof. reflexivity. Qed.

Lemma Hangman_prompt_text_witness :
  exists masked,
    Hangman_prompt lower_latin1 (Hangman_init 1 (py "Apa") None)
      (World_init (fun _ => 0%nat))
    = Ok (py "Gissa en bokstav i ordet (" ++ masked ++ py ") (1 gissning kvar)? ",
          World_init (fun _ => 0%nat)).
Proof.
  destruct (Hangman_prompt_text lower_latin1 (Hangman_init 1 (py "Apa") None)
              (World_init (fun _ => 0%nat)))
    as (masked & _ & Hprompt).
  - eexists. reflexivity.
  - exists masked. exact Hprompt.
Defined.

Lemma lower_latin1_pointwise (s : str) :
  lowers_pointwise lower_latin1 s (lower_latin1 s).
Proof.
  rewrite lower_latin1_map. unfold lowers_pointwise.
  induction s as [|c s IH]; constructor; [reflexivity | exact IH].
Qed.

Lemma Hangman_maskedWord_found_witness :
  maskedWord lower_latin1 (mkHangman 3 (py "Apa") 1)
    (mkWorld {[ 1%nat := {[ 97%N; 112%N ]} ]} [] (fun _ => 0%nat) 0)
  = Ok (py "Apa", mkWorld {[ 1%nat := {[ 97%N; 112%N ]} ]} [] (fun _ => 0%nat) 0).
Proof.
  destruct (Hangman_maskedWord_found lower_latin1 (mkHangman 3 (py "Apa") 1)
              (mkWorld {[ 1%nat := {[ 97%N; 112%N ]} ]} [] (fun _ => 0%nat) 0)
              {[ 97%N; 112%N ]})
    as (masked & Hmask & _ & Hfound & _).
  - vm_compute. repeat constructor.
  - reflexivity.
  - rewrite Hmask. rewrite Hfound by (by vm_compute). reflexivity.
Defined.

(** ** The programs never fail *)

Section ProgramsEnd.

Variable lower : str -> str.

(** Lowering a text that is not empty gives a text that is not empty. *)
Hypothesis lower_nonempty : forall s : str, s <> [] -> lower s <> [].

(** X5: what a call of [Hangman.next] keeps. A hangman state that it returns
    has at least one guess left and no more than before, the same word, and
    a new set that holds every letter of the old one, which is left as it
    was. A game that starts with no guess left is finished by its first
    answer, even by a right guess that does not complete the word. *)
Theorem Hangman_next_keeps (h : Hangman) (answer : str) (w : World)
    (G : gset N) :
  answer <> [] ->
  heap w !! guessed h = Some G ->
  exists game w',
    Hangman_next lower h answer w = Ok (game, w')
    /\ heap w' !! guessed h = Some G
    /\ (guessesLeft h < 1 -> done game = true)
    /\ forall h', game = HangmanGame h' ->
         1 <= guessesLeft h' <= guessesLeft h
         /\ word h' = word h
         /\ guessed h' <> guessed h
         /\ exists G', heap w' !! guessed h' = Some G' /\ G ⊆ G'.
Proof.
  intros Hne HG.
  destruct (lower answer) as [|c rest] eqn:Hc;
    [by destruct (lower_nonempty answer Hne)|].
  rewrite (Hangman_next_eq lower h answer w G c rest Hc HG).
  eexists _, _. split; [reflexivity|].
  assert (Hfresh : fresh (dom (heap w)) <> guessed h).
  { intros Heq. pose proof (fresh_loc_unused w) as Hnone.
    rewrite Heq, HG in Hnone. discriminate Hnone. }
  split; [cbn [world_after_guess heap]; by rewrite lookup_insert_ne|].
  assert (Hle : gl lower h G c <= guessesLeft h)
    by (destruct (gl_cases lower h G c) as [(_ & _ & ->)|[_ ->]]; lia).
  destruct (foundWord lower h (G ∪ {[ c ]})); [by split|].
  destruct (bool_decide (gl lower h G c < 1)) eqn:Egl; [by split|].
  apply bool_decide_eq_false in Egl.
  split; [intros Hnone; lia|].
  intros h' [= <-]. cbn [guessesLeft word guessed].
  split; [lia|]. split; [reflexivity|]. split; [exact Hfresh|].
  exists (G ∪ {[ c ]}). split; [apply world_after_guess_set | set_solver].
Qed.

(** X8: the game loop from a state whose objects are in place (the set of a
    hangman game in the heap, a blackjack game in play) raises no exception
    but the end of the input, for any lines and any random source. When it
    returns, the state is done, the lines left are an end piece of the lines
    given, and every set object that was in the heap is as it was. *)
Theorem run_io_ends (game : GameState) (inputs : list str) (w : World) :
  playable game w ->
  (exists game' rest w',
      run_io lower game inputs w = Ok ((game', rest), w')
      /\ done game' = true
      /\ rest `suffix_of` inputs
      /\ heap_kept w w')
  \/ run_io lower game inputs w = Raise EOFError.
Proof.
  intros Hplay.
  pose proof (run_io_playable lower lower_nonempty inputs game w Hplay) as Hrun.
  destruct (run_io lower game inputs w) as [[[game' rest] w']|e].
  - left. destruct Hrun as (Hdone & Hkept & Hsuffix). by eexists _, _, _.
  - right. exact (f_equal Raise Hrun).
Qed.

Lemma Hangman_run_io_messages (inputs : list str) :
  forall (h : Hangman) (w : World),
    is_Some (heap w !! guessed h) ->
    returns_or_EOF
      (fun r w' =>
         (fst r = FinishedGame (found_message (word h))
          \/ fst r = FinishedGame (not_found_message (word h)))
         /\ snd r `suffix_of` inputs)
      (run_io lower (HangmanGame h) inputs w).
Proof.
  induction inputs as [|answer inputs IH]; intros h w [G HG].
  { destruct (Hangman_prompt_returns lower h w (ex_intro _ G HG)) as [p Hp].
    by rewrite (run_io_eof lower (HangmanGame h) w p eq_refl Hp). }
  destruct (decide (answer = [])) as [He|Hne].
  { destruct (Hangman_prompt_returns lower h w (ex_intro _ G HG)) as [p Hp].
    rewrite (run_io_skip lower (HangmanGame h) answer inputs w p eq_refl Hp He).
    eapply returns_or_EOF_impl; [apply IH; by exists G|].
    intros r w1 [Hr Hsuffix]. split; [exact Hr | by apply suffix_cons_r]. }
  destruct (lower answer) as [|c rest] eqn:Hc;
    [by destruct (lower_nonempty answer Hne)|].
  rewrite (run_io_Hangman_step lower h answer inputs w G c rest HG Hne Hc).
  cbv zeta.
  destruct (foundWord lower h (G ∪ {[ c ]}));
    [cbn; split; [by left | by apply suffix_cons_r]|].
  destruct (bool_decide (gl lower h G c < 1));
    [cbn; split; [by right | by apply suffix_cons_r]|].
  eapply returns_or_EOF_impl.
  - apply IH. cbn [guessed]. rewrite world_after_guess_set. by eexists.
  - intros r w1 [Hr Hsuffix]. split; [exact Hr | by apply suffix_cons_r].
Qed.

(** X9: the main program of [hangman.py], for any lines and any random
    source, raises no exception but the end of the input; when it returns,
    it returns the finished game with the message of the word found or of
    the word not found, for one of the seven words. *)
Theorem hangman_main_ends (inputs : list str) (draws : nat -> nat) :
  (exists word0 message rest w',
      hangman_main lower inputs (World_init draws)
      = Ok ((FinishedGame message, rest), w')
      /\ word0 ∈ words
      /\ (message = found_message word0 \/ message = not_found_message word0)
      /\ rest `suffix_of` inputs)
  \/ hangman_main lower inputs (World_init draws) = Raise EOFError.
Proof.
  destruct (choice_returns words (World_init draws)) as (word0 & Hword & Hchoice);
    [done|].
  set (w1 := mkWorld (heap (World_init draws)) (stdout (World_init draws))
                     (rng (World_init draws)) (S (rpos (World_init draws)))) in *.
  assert (Hmain : hangman_main lower inputs (World_init draws)
                  = run_io lower (HangmanGame (Hangman_init 5 word0 None)) inputs w1).
  { unfold hangman_main, Hangman_create, bind. by rewrite Hchoice. }
  rewrite Hmain.
  pose proof (Hangman_run_io_messages inputs (Hangman_init 5 word0 None) w1
                ltac:(by eexists)) as Hrun.
  destruct (run_io _ _ _ _) as [[[game' rest] w']|e].
  - left. destruct Hrun as [[Hr|Hr] Hsuffix]; cbn [fst snd word Hangman_init] in *;
      subst game'; eexists word0, _, rest, w'; repeat split; auto.
  - right. exact (f_equal Raise Hrun).
Qed.

(** X10: the main program of [arcade.py], for any lines and any random
    source, raises no exception but the end of the input, whatever games
    are played from the menu and however they go. It returns only at the
    answer "x" to the menu: the lines are the lines read before it, the
    line "x" and the lines left unread, in this order; printing that answer
    is the last thing the program did, and it returns the finished game of
    the empty message. *)
Theorem arcade_main_ends (inputs : list str) (draws : nat -> nat) :
  (exists rest w',
      arcade_main lower inputs (World_init draws)
      = Ok ((FinishedGame [], rest), w')
      /\ py "x" ∈ inputs
      /\ rest `suffix_of` inputs
      /\ (length rest < length inputs)%nat
      /\ exists read w0,
           inputs = read ++ py "x" :: rest
           /\ w' = printed (py "x") w0)
  \/ arcade_main lower inputs (World_init draws) = Raise EOFError.
Proof.
  unfold arcade_main.
  pose proof (Menu_run_loop_safe lower lower_nonempty (S (length inputs)) inputs
                (World_init draws) ltac:(lia) ltac:(by eexists)) as Hrun.
  destruct (Menu_run_loop _ _ _ _) as [[[game' rest] w']|e].
  - left. destruct Hrun as (Hr & Hsuffix & Hlen & Hx & Hread).
    cbn [fst snd] in *. subst game'. by exists rest, w'.
  - right. exact (f_equal Raise Hrun).
Qed.

End ProgramsEnd.

Lemma Hangman_next_keeps_witness :
  exists game w',
    Hangman_next lower_latin1 (Hangman_init 0 (py "Apa") None) (py "a")
      (World_init (fun _ => 0%nat))
    = Ok (game, w')
    /\ done game = true.
Proof.
  destruct (Hangman_next_keeps lower_latin1 lower_latin1_nonempty
              (Hangman_init 0 (py "Apa") None) (py "a")
              (World_init (fun _ => 0%nat)) ∅)
    as (game & w' & Hnext & _ & Hdone & _).
  - by vm_compute.
  - reflexivity.
  - exists game, w'. split; [exact Hnext|]. apply Hdone. by vm_compute.
Defined.

Lemma run_io_ends_witness :
  (exists game' rest w',
      run_io lower_latin1 RockScissorPaper [py "sax"; py "sten"]
        (World_init (fun _ => 0%nat))
      = Ok ((game', rest), w')
      /\ done game' = true)
  \/ run_io lower_latin1 RockScissorPaper [py "sax"; py "sten"]
       (World_init (fun _ => 0%nat))
     = Raise EOFError.
Proof.
  destruct (run_io_ends lower_latin1 lower_latin1_nonempty RockScissorPaper
              [py "sax"; py "sten"] (World_init (fun _ => 0%nat)) I)
    as [(game' & rest & w' & Hrun & Hdone & _)|Heof].
  - left. by exists game', rest, w'.
  - by right.
Defined.

Lemma hangman_main_ends_witness :
  (exists message rest w',
      hangman_main lower_latin1 [py "a"; py "p"] (World_init (fun _ => 0%nat))
      = Ok ((FinishedGame message, rest), w'))
  \/ hangman_main lower_latin1 [py "a"; py "p"] (World_init (fun _ => 0%nat))
     = Raise EOFError.
Proof.
  destruct (hangman_main_ends lower_latin1 lower_latin1_nonempty
              [py "a"; py "p"] (fun _ => 0%nat))
    as [(word0 & message & rest & w' & Hrun & _)|Heof].
  - left. by exists message, rest, w'.
  - by right.
Defined.

Lemma arcade_main_ends_witness :
  (exists w',
      arcade_main lower_latin1 [py "3"; py "sax"; py "x"; py "1"]
        (World_init (fun _ => 0%nat))
      = Ok ((FinishedGame [], [py "1"]), w'))
  \/ arcade_main lower_latin1 [py "3"; py "sax"; py "x"; py "1"]
       (World_init (fun _ => 0%nat))
     = Raise EOFError.
Proof.
  destruct (arcade_main_ends lower_latin1 lower_latin1_nonempty
              [py "3"; py "sax"; py "x"; py "1"] (fun _ => 0%nat))
    as [(rest & w' & Hrun & _ & _ & _ & read & w0 & Hread & _)|Heof].
  - left. exists w'. rewrite Hrun.
    assert (Hrest : rest = [py "1"]).
    { vm_compute in Hread.
      destruct read as [|l1 [|l2 [|l3 [|l4 [|l5 read]]]]];
        cbn [app] in Hread; try discriminate Hread.
      injection Hread as _ _ Hrest. symmetry. exact Hrest. }
    by rewrite Hrest.
  - by right.
Defined.

(** ** Rock, scissor, paper: a whole game *)

Lemma RockScissorPaper_next_valid (answer : str) (w : World) :
  answer ∈ alternatives ->
  exists message,
    message <> []
    /\ RockScissorPaper_next answer w
       = Ok (FinishedGame message,
             mkWorld (heap w) (stdout w) (rng w) (S (rpos w))).
Proof.
  intros Hin.
  assert (Hc : (rng w (rpos w) mod 3 < 3)%nat) by (apply Nat.mod_upper_bound; lia).
  assert (Hstep : forall u, index answer alternatives = Ok u ->
            RockScissorPaper_next answer w
            = (computerChoice <- lift (getitem alternatives
                                         (Z.of_nat (rng w (rpos w) mod 3))) ;;
               if bool_decide (Z.of_nat (rng w (rpos w) mod 3) = u)
               then ret (FinishedGame (py "Oavgjort"))
               else
                 beaten <- lift (getitem winsOver u) ;;
                 if bool_decide (beaten = Z.of_nat (rng w (rpos w) mod 3))
                 then ret (FinishedGame (py "Du vann mot " ++ computerChoice))
                 else ret (FinishedGame (py "Du förlorar mot " ++ computerChoice)))
                (mkWorld (heap w) (stdout w) (rng w) (S (rpos w)))).
  { intros u Hu. unfold RockScissorPaper_next.
    rewrite bool_decide_eq_false_2 by (intros Hn; exact (Hn Hin)).
    unfold bind at 1. unfold lift at 1. rewrite Hu.
    unfold bind at 1. rewrite randint_draw. reflexivity. }
  destruct (alternatives_cases answer Hin) as [->|[->| ->]];
    [ rewrite (Hstep 0 eq_refl) | rewrite (Hstep 1 eq_refl)
    | rewrite (Hstep 2 eq_refl) ];
    clear Hstep;
    (destruct (rng w (rpos w) mod 3)%nat as [|[|[|c]]]; [| | |lia]);
    eexists; (split; [|reflexivity]); by vm_compute.
Qed.

(** X11: a game of rock, scissor, paper reads lines up to the first one that
    is an alternative. The lines before it, empty or not, change nothing:
    nothing is printed and no random number is drawn. The alternative draws
    one random number and prints the message of the finished game that the
    loop returns, and the lines after it are left unread. *)
Theorem RockScissorPaper_run_io (lower : str -> str) (skipped : list str)
    (answer : str) (rest : list str) (w : World) :
  Forall (fun a => a ∉ alternatives) skipped ->
  answer ∈ alternatives ->
  exists message,
    message <> []
    /\ run_io lower RockScissorPaper (skipped ++ answer :: rest) w
       = Ok ((FinishedGame message, rest),
             mkWorld (heap w) (stdout w ++ [message]) (rng w) (S (rpos w))).
Proof.
  intros Hskipped Hin.
  assert (Hprompt : prompt lower RockScissorPaper w
                    = Ok (py "Välj något av sten, sax eller påse: ", w))
    by reflexivity.
  induction Hskipped as [|a skipped Ha _ IH]; cbn [app].
  - destruct (RockScissorPaper_next_valid answer w Hin) as (message & Hne & Hnext).
    exists message. split; [exact Hne|].
    assert (Hanswer : answer <> []) by (intros ->; by vm_compute in Hin).
    rewrite (run_io_step lower RockScissorPaper _ answer rest w _ _ eq_refl
               Hprompt Hanswer Hnext).
    cbn [info]. rewrite (bool_decide_eq_false_2 _ Hne).
    unfold bind, print. by rewrite run_io_done.
  - destruct IH as (message & Hne & Hrun). exists message. split; [exact Hne|].
    destruct (decide (a = [])) as [He|Hane].
    + by rewrite (run_io_skip lower RockScissorPaper a _ w _ eq_refl Hprompt He).
    + assert (Hnext : next lower RockScissorPaper a w = Ok (RockScissorPaper, w)).
      { cbn [next]. unfold RockScissorPaper_next.
        by rewrite (bool_decide_eq_true_2 _ Ha). }
      rewrite (run_io_step lower RockScissorPaper _ a _ w _ _ eq_refl
                 Hprompt Hane Hnext).
      cbn [info]. rewrite (bool_decide_eq_true_2 _ eq_refl).
      unfold bind at 1. unfold ret at 1. exact Hrun.
Qed.

Lemma RockScissorPaper_run_io_witness :
  exists message,
    run_io lower_latin1 RockScissorPaper [py "sand"; []; py "sax"; py "sten"]
      (World_init (fun _ => 0%nat))
    = Ok ((FinishedGame message, [py "sten"]),
          mkWorld {[ Hangman_default_guessed := ∅ ]} [message] (fun _ => 0%nat) 1).
Proof.
  destruct (RockScissorPaper_run_io lower_latin1 [py "sand"; []] (py "sax")
              [py "sten"] (World_init (fun _ => 0%nat)))
    as (message & _ & Hrun).
  - apply (bool_decide_unpack _). by vm_compute.
  - apply (bool_decide_unpack _). by vm_compute.
  - exists message. exact Hrun.
Defined.

(** ** Blackjack: the deal, the cards and the end of a game *)

Lemma shuffle_from_world {A} (i : nat) :
  forall (x x' : list A) (w w' : World),
    shuffle_from i x w = Ok (x', w') ->
    w' = mkWorld (heap w) (stdout w) (rng w) (rpos w + i).
Proof.
  induction i as [|i IH]; intros x x' w w'; cbn [shuffle_from].
  - intros [= _ <-]. destruct w. cbn. f_equal. lia.
  - unfold bind, randbelow. intros Hrun. apply IH in Hrun. rewrite Hrun.
    cbn. f_equal. lia.
Qed.

Lemma shuffle_world {A} (x x' : list A) (w w' : World) :
  shuffle x w = Ok (x', w') ->
  w' = mkWorld (heap w) (stdout w) (rng w) (rpos w + (length x - 1)).
Proof. apply shuffle_from_world. Qed.

Lemma BlackjackDeck_init_world (cards : list BlackjackCard) (w w' : World) :
  BlackjackDeck_init w = Ok (cards, w') ->
  w' = mkWorld (heap w) (stdout w) (rng w) (rpos w + 50).
Proof.
  unfold BlackjackDeck_init. intros Hinit.
  apply shuffle_world in Hinit.
  rewrite length_map, length_seq in Hinit. exact Hinit.
Qed.

Lemma unshuffled_to_11 : Forall (fun c => value c <= 11) unshuffled.
Proof. apply (bool_decide_unpack _). by vm_compute. Qed.

Lemma Blackjack_init_dealt (w : World) :
  exists rest p2 p1 b2 b1,
    let w' := mkWorld (heap w) (stdout w) (rng w) (rpos w + 50) in
    BlackjackDeck_init w = Ok (rest ++ [p2; p1; b2; b1], w')
    /\ Blackjack_init w = Ok (mkBlackjack rest [b1; b2] [p1; p2], w')
    /\ length rest = 47%nat.
Proof.
  destruct (BlackjackDeck_init_Permutation w) as (cards & w' & Hinit & Hperm).
  assert (Hlen : length cards = 51%nat) by (by rewrite Hperm).
  pose proof (BlackjackDeck_init_world _ _ _ Hinit) as Hw.
  destruct (snoc_cases cards) as [->|(d1 & b1 & ->)]; [discriminate Hlen|].
  destruct (snoc_cases d1) as [->|(d2 & b2 & ->)]; [discriminate Hlen|].
  destruct (snoc_cases d2) as [->|(d3 & p1 & ->)]; [discriminate Hlen|].
  destruct (snoc_cases d3) as [->|(d4 & p2 & ->)]; [discriminate Hlen|].
  exists d4, p2, p1, b2, b1. cbv zeta. rewrite <- Hw. clear Hw.
  split; [rewrite Hinit; by rewrite <- !app_assoc|]. split.
  - unfold Blackjack_init, bind. rewrite Hinit. unfold lift.
    rewrite takeCard_snoc. cbn [Exc_bind].
    rewrite takeCard_snoc. cbn [Exc_bind fst snd].
    rewrite takeCard_snoc. cbn [Exc_bind].
    rewrite takeCard_snoc. cbn [Exc_bind fst snd]. reflexivity.
  - rewrite !length_app in Hlen. cbn [length] in Hlen. lia.
Qed.

(** X12: making a game never fails. The deck is shuffled with 50 random
    draws and nothing else of the world changes; the bank gets the last card
    of the shuffled deck and the one before it, the player the two cards
    before those, and 47 cards are left in the deck. *)
Theorem Blackjack_init_deal (w : World) :
  exists rest p2 p1 b2 b1,
    let w' := mkWorld (heap w) (stdout w) (rng w) (rpos w + 50) in
    BlackjackDeck_init w = Ok (rest ++ [p2; p1; b2; b1], w')
    /\ Blackjack_init w = Ok (mkBlackjack rest [b1; b2] [p1; p2], w')
    /\ length rest = 47%nat.
Proof. exact (Blackjack_init_dealt w). Qed.

(** X13: in every game that a session can be in, the deck and the two hands
    together hold each of the 51 cards of the new deck exactly once: no card
    is dealt twice, none is lost, all labels differ, and every card is worth
    between 2 and 11. *)
Theorem Blackjack_cards_kept (self : Blackjack) :
  Blackjack_reachable self ->
  let all := deck self ++ bankHand self ++ playerHand self in
  all ≡ₚ map card_of (seq 1 51)
  /\ NoDup (map label all)
  /\ length all = 51%nat
  /\ Forall (fun c => 2 <= value c <= 11) all.
Proof.
  intros (Hperm & _ & _)%Blackjack_reachable_inv. cbv zeta.
  split; [exact Hperm|].
  split; [rewrite Hperm; apply unshuffled_labels_NoDup|].
  split; [by rewrite Hperm|].
  rewrite Hperm. apply Forall_and. split;
    [apply unshuffled_from_2 | apply unshuffled_to_11].
Qed.

Lemma Blackjack_cards_kept_witness :
  NoDup (map label (deck first_game ++ bankHand first_game
                    ++ playerHand first_game)).
Proof.
  exact (proj1 (proj2 (Blackjack_cards_kept first_game first_game_reachable))).
Defined.

Lemma Hand_value_to_11 (l : list BlackjackCard) :
  Forall (fun c => value c <= 11) l -> Hand_value l <= 11 * Z.of_nat (length l).
Proof.
  induction 1 as [|c l Hc Hl IH].
  - rewrite Hand_value_nil. cbn. lia.
  - rewrite Hand_value_cons. cbn [length]. lia.
Qed.

Lemma Blackjack_inv_to_11 (self : Blackjack) :
  Blackjack_inv self ->
  Forall (fun c => value c <= 11) (deck self)
  /\ Forall (fun c => value c <= 11) (bankHand self)
  /\ Forall (fun c => value c <= 11) (playerHand self).
Proof.
  intros (Hperm & _ & _).
  assert (Hall : Forall (fun c => value c <= 11)
                   (deck self ++ bankHand self ++ playerHand self))
    by (rewrite Hperm; apply unshuffled_to_11).
  apply Forall_app in Hall as [Hd Hall]. by apply Forall_app in Hall.
Qed.

(** X14: on "stand" in a game that a session can be in, the bank ends with a
    hand of 9 cards at most that is worth 27 at most; a bank that holds 17
    or more already draws nothing, and the game object is left as it was.
    The player's hand is never touched. *)
Theorem Blackjack_stand_bounds (self : Blackjack) :
  Blackjack_reachable self ->
  exists self' game,
    Blackjack_next self (py "stand") = Ok (self', game)
    /\ playerHand self' = playerHand self
    /\ Hand_value (bankHand self') <= 27
    /\ (length (bankHand self') <= 9)%nat
    /\ (17 <= Hand_value (bankHand self) -> self' = self).
Proof.
  intros Hinv%Blackjack_reachable_inv.
  destruct (Blackjack_inv_stand self Hinv)
    as (drawn & d' & Hdeck & Hloop & Hval & Hfirst & Hsize & _).
  destruct (Blackjack_inv_to_11 self Hinv) as (Hd11 & Hb11 & _).
  destruct (Blackjack_inv_sizes self Hinv) as (Hbank & _ & _).
  eexists _, _. split.
  { unfold Blackjack_next.
    rewrite (bool_decide_eq_true_2 _ eq_refl), Hloop. reflexivity. }
  cbn [fst snd playerHand bankHand].
  split; [reflexivity|]. split; [|split; [exact Hsize|]].
  - destruct (snoc_cases drawn) as [->|(p & c & ->)].
    + rewrite app_nil_r. apply Hand_value_to_11 in Hb11. lia.
    + specialize (Hfirst (length p)).
      rewrite length_app in Hfirst. cbn [length] in Hfirst.
      specialize (Hfirst ltac:(lia)). rewrite take_app_length in Hfirst.
      rewrite app_assoc, Hand_value_snoc.
      rewrite Hdeck in Hd11. apply Forall_app in Hd11 as [_ Hd11].
      rewrite reverse_snoc in Hd11. apply Forall_cons in Hd11 as [Hc _]. lia.
  - intros H17. destruct drawn as [|c drawn].
    + assert (Hd : d' = deck self)
        by (rewrite Hdeck; change (reverse []) with (@nil BlackjackCard);
            by rewrite app_nil_r).
      rewrite Hd, app_nil_r. by destruct self.
    + specialize (Hfirst 0%nat ltac:(cbn [length]; lia)).
      cbn [take] in Hfirst. rewrite app_nil_r in Hfirst. lia.
Qed.

Lemma Blackjack_stand_bounds_witness :
  exists self' game,
    Blackjack_next first_game (py "stand") = Ok (self', game)
    /\ Hand_value (bankHand self') <= 27.
Proof.
  destruct (Blackjack_stand_bounds first_game first_game_reachable)
    as (self' & game & Hnext & _ & Hval & _).
  exists self', game. split; [exact Hnext | exact Hval].
Defined.

Lemma Blackjack_next_hit_eq (self : Blackjack) (d' p' : list BlackjackCard) :
  takeCard (deck self, playerHand self) = Ok (d', p') ->
  Blackjack_next self (py "hit")
  = (if bool_decide (Hand_value p' > 21)
     then Ok (mkBlackjack d' (bankHand self) p',
              Blackjack_end (mkBlackjack d' (bankHand self) p'))
     else Ok (mkBlackjack d' (bankHand self) p',
              BlackjackGame (mkBlackjack d' (bankHand self) p'))).
Proof.
  intros Htake. unfold Blackjack_next.
  rewrite (bool_decide_eq_false_2 _ hit_is_not_stand).
  rewrite (bool_decide_eq_true_2 _ eq_refl).
  rewrite Htake. reflexivity.
Qed.

(** X15: when a "hit" takes the player over 21 in a game that a session can
    be in, the bank has drawn nothing and holds its two cards, and the
    result still says that the player won exactly when those two cards are
    worth 22, that is, when both are worth 11; in any other case the bank
    won. *)
Theorem Blackjack_bust_verdict (self self' : Blackjack) (game : GameState) :
  Blackjack_reachable self ->
  Blackjack_next self (py "hit") = Ok (self', game) ->
  Hand_value (playerHand self') > 21 ->
  game = Blackjack_end self'
  /\ bankHand self' = bankHand self
  /\ (playerWon (Hand_value (bankHand self')) (Hand_value (playerHand self'))
      = true
      <-> Hand_value (bankHand self) = 22)
  /\ (Hand_value (bankHand self) = 22
      <-> Forall (fun c => value c = 11) (bankHand self)).
Proof.
  intros Hinv%Blackjack_reachable_inv Hnext Hbust.
  destruct (Blackjack_inv_hit self Hinv) as (c & d' & _ & _ & Htake & _).
  rewrite (Blackjack_next_hit_eq self _ _ Htake) in Hnext.
  destruct (bool_decide _) eqn:E in Hnext; injection Hnext as <- <-.
  2: { apply bool_decide_eq_false in E. cbn [playerHand] in Hbust. contradiction. }
  cbn [bankHand playerHand] in *.
  destruct (Blackjack_inv_to_11 self Hinv) as (_ & Hb11 & _).
  destruct (Blackjack_inv_cards self Hinv) as (_ & Hb2 & _ & _).
  destruct (Blackjack_inv_sizes self Hinv) as (Hbank & _ & _).
  destruct (bankHand self) as [|c1 [|c2 [|]]]; try discriminate Hbank.
  apply Forall_cons in Hb11 as [H1 Hb11]. apply Forall_cons in Hb11 as [H2 _].
  rewrite !Hand_value_cons, Hand_value_nil.
  split; [reflexivity|]. split; [reflexivity|]. split.
  - rewrite playerWon_iff. lia.
  - split.
    + intros Hsum. repeat constructor; lia.
    + intros Hall. apply Forall_cons in Hall as [-> Hall].
      apply Forall_cons in Hall as [-> _]. lia.
Qed.

Lemma Blackjack_bust_verdict_witness :
  exists self' game,
    Blackjack_next first_game (py "hit") = Ok (self', game)
    /\ (playerWon (Hand_value (bankHand self')) (Hand_value (playerHand self'))
        = true
        <-> Hand_value (bankHand first_game) = 22).
Proof.
  destruct (Blackjack_next first_game (py "hit")) as [[self' game]|e] eqn:Hnext.
  - exists self', game. split; [reflexivity|].
    refine (proj1 (proj2 (proj2
      (Blackjack_bust_verdict first_game self' game first_game_reachable
         Hnext _)))).
    vm_compute in Hnext. injection Hnext as <- _. by vm_compute.
  - vm_compute in Hnext. discriminate Hnext.
Defined.

(** ** Blackjack: a session comes to an end *)

Lemma Blackjack_reachable_two (self : Blackjack) :
  Blackjack_reachable self -> (2 <= length (playerHand self))%nat.
Proof.
  induction 1 as [w self w' Hinit | self answer self' Hreach IH Hnext].
  - destruct (Blackjack_init_dealt w) as (rest & p2 & p1 & b2 & b1 & _ & Hdeal & _).
    rewrite Hinit in Hdeal. by injection Hdeal as -> _.
  - pose proof (Blackjack_reachable_inv self Hreach) as Hinv.
    unfold Blackjack_next in Hnext.
    destruct (bool_decide (answer = py "stand")).
    { destruct (takeCardsUntilValue _ _); exc_step; discriminate. }
    destruct (bool_decide (answer = py "hit")); [|by injection Hnext as <-].
    destruct (Blackjack_inv_hit self Hinv) as (c & d' & _ & _ & Htake & _).
    rewrite Htake in Hnext. exc_step.
    destruct (bool_decide _) in Hnext; [discriminate|].
    injection Hnext as <-. cbn [playerHand]. rewrite length_app. lia.
Qed.

Lemma hit_nonempty : py "hit" <> [].
Proof. by vm_compute. Qed.

Lemma stand_nonempty : py "stand" <> [].
Proof. by vm_compute. Qed.

Lemma run_io_Blackjack_end (lower : str -> str) (self self' : Blackjack)
    (answer : str) (inputs : list str) (w : World) :
  length (bankHand self) = 2%nat ->
  answer <> [] ->
  Blackjack_next self answer = Ok (self', Blackjack_end self') ->
  exists w',
    run_io lower (BlackjackGame self) (answer :: inputs) w
    = Ok ((Blackjack_end self', inputs), w').
Proof.
  intros Hbank Hne Hnext.
  destruct (Blackjack_prompt_returns self Hbank) as [p Hp].
  assert (Hprompt : prompt lower (BlackjackGame self) w = Ok (p, w))
    by (cbn [prompt]; unfold lift; by rewrite Hp).
  rewrite (run_io_step lower (BlackjackGame self) _ answer inputs w w p eq_refl
             Hprompt Hne (next_BlackjackGame lower _ _ _ _ w Hnext)).
  destruct (info_printed (Blackjack_end self')
              (run_io lower (Blackjack_end self') inputs) w) as (w1 & _ & ->).
  exists w1. by apply run_io_done.
Qed.

Lemma Blackjack_hits_end (lower : str -> str) (n : nat) :
  forall (self : Blackjack) (w : World),
    Blackjack_inv self ->
    (11 <= length (playerHand self) + n)%nat ->
    exists message rest w',
      run_io lower (BlackjackGame self) (replicate n (py "hit")) w
      = Ok ((FinishedGame message, rest), w').
Proof.
  induction n as [|n IH]; intros self w Hinv Hn.
  { destruct (Blackjack_inv_sizes self Hinv) as (_ & Hplayer & _). lia. }
  cbn [replicate].
  destruct (Blackjack_inv_hit self Hinv) as (c & d' & _ & _ & Htake & Hperm).
  pose proof (Blackjack_next_hit_eq self _ _ Htake) as Hnext.
  destruct (bool_decide (Hand_value (playerHand self ++ [c]) > 21)) eqn:E.
  - destruct (run_io_Blackjack_end lower self _ (py "hit")
                (replicate n (py "hit")) w (proj1 (proj2 Hinv)) hit_nonempty Hnext)
      as (w' & ->).
    unfold Blackjack_end. by eexists _, _, _.
  - apply bool_decide_eq_false in E.
    destruct (prompt_playable lower (BlackjackGame self) w Hinv) as [p Hp].
    rewrite (run_io_step lower (BlackjackGame self) _ (py "hit") _ w w p eq_refl
               Hp hit_nonempty (next_BlackjackGame lower _ _ _ _ w Hnext)).
    cbn [info]. rewrite (bool_decide_eq_true_2 _ eq_refl).
    unfold bind at 1. unfold ret at 1.
    apply IH.
    + split; [exact Hperm|]. split; [apply Hinv|]. left. cbn [playerHand]. lia.
    + cbn [playerHand]. rewrite length_app. cbn [length]. lia.
Qed.

(** X16: a session of blackjack comes to an end. From every game that a
    session can be in, the line "stand" ends the loop at once with the
    finished game, and nine lines "hit" end it too, at the ninth or before,
    whatever the cards are. *)
Theorem Blackjack_session_ends (lower : str -> str) (self : Blackjack)
    (w : World) :
  Blackjack_reachable self ->
  (exists message w',
      run_io lower (BlackjackGame self) [py "stand"] w
      = Ok ((FinishedGame message, []), w'))
  /\ (exists message rest w',
         run_io lower (BlackjackGame self) (replicate 9 (py "hit")) w
         = Ok ((FinishedGame message, rest), w')).
Proof.
  intros Hreach.
  pose proof (Blackjack_reachable_inv self Hreach) as Hinv.
  pose proof (Blackjack_reachable_two self Hreach) as Htwo.
  split.
  - destruct (Blackjack_inv_stand self Hinv) as (drawn & d' & _ & Hloop & _).
    assert (Hnext : Blackjack_next self (py "stand")
                    = Ok (mkBlackjack d' (bankHand self ++ drawn) (playerHand self),
                          Blackjack_end (mkBlackjack d' (bankHand self ++ drawn)
                                                     (playerHand self)))).
    { unfold Blackjack_next.
      rewrite (bool_decide_eq_true_2 _ eq_refl), Hloop. reflexivity. }
    destruct (run_io_Blackjack_end lower self _ (py "stand") [] w
                (proj1 (proj2 Hinv)) stand_nonempty Hnext) as (w' & ->).
    unfold Blackjack_end. by eexists _, _.
  - apply Blackjack_hits_end; [exact Hinv | lia].
Qed.

Lemma Blackjack_session_ends_witness :
  exists message w',
    run_io lower_latin1 (BlackjackGame first_game) [py "stand"]
      (World_init (fun _ => 0%nat))
    = Ok ((FinishedGame message, []), w').
Proof.
  exact (proj1 (Blackjack_session_ends lower_latin1 first_game
                  (World_init (fun _ => 0%nat)) first_game_reachable)).
Defined.

(** X17: in the loop on a blackjack game whose bank holds its two cards,
    lines that are neither "hit" nor "stand" (empty lines and the same words
    in other letter case included) are passed over: no card is drawn,
    nothing is printed, and the loop goes on with the next line in the same
    world. *)
Theorem Blackjack_run_io_skips (lower : str -> str) (self : Blackjack)
    (skipped inputs : list str) (w : World) :
  length (bankHand self) = 2%nat ->
  Forall (fun a => a <> py "hit" /\ a <> py "stand") skipped ->
  run_io lower (BlackjackGame self) (skipped ++ inputs) w
  = run_io lower (BlackjackGame self) inputs w.
Proof.
  intros Hbank Hskipped.
  destruct (Blackjack_prompt_returns self Hbank) as [p Hp].
  assert (Hprompt : prompt lower (BlackjackGame self) w = Ok (p, w))
    by (cbn [prompt]; unfold lift; by rewrite Hp).
  induction Hskipped as [|a skipped [Hhit Hstand] _ IH]; [reflexivity|].
  cbn [app]. rewrite <- IH.
  destruct (decide (a = [])) as [He|Hne].
  - by rewrite (run_io_skip lower (BlackjackGame self) a _ w p eq_refl Hprompt He).
  - assert (Hnext : Blackjack_next self a = Ok (self, BlackjackGame self)).
    { unfold Blackjack_next.
      by rewrite (bool_decide_eq_false_2 _ Hstand), (bool_decide_eq_false_2 _ Hhit). }
    rewrite (run_io_step lower (BlackjackGame self) _ a _ w w p eq_refl
               Hprompt Hne (next_BlackjackGame lower _ _ _ _ w Hnext)).
    cbn [info]. by rewrite (bool_decide_eq_true_2 _ eq_refl).
Qed.

Lemma Blackjack_run_io_skips_witness :
  run_io lower_latin1 (BlackjackGame first_game)
    ([py "Hit"; []; py "stay"] ++ [py "stand"]) (World_init (fun _ => 0%nat))
  = run_io lower_latin1 (BlackjackGame first_game) [py "stand"]
      (World_init (fun _ => 0%nat)).
Proof.
  apply Blackjack_run_io_skips.
  - reflexivity.
  - apply (bool_decide_unpack _). by vm_compute.
Defined.

Lemma Hangman_right_letters_win_witness :
  exists rest w',
    run_io lower_latin1 (HangmanGame (Hangman_init 5 (py "Apa") None))
      (map (fun c => [c]) [97%N; 112%N]) (World_init (fun _ => 0%nat))
    = Ok ((FinishedGame (found_message (py "Apa")), rest), w').
Proof.
  apply (Hangman_right_letters_win lower_latin1 [97%N; 112%N]
           (Hangman_init 5 (py "Apa") None) (World_init (fun _ => 0%nat)) ∅).
  - reflexivity.
  - cbn. lia.
  - discriminate.
  - intros c Hc.
    change (lower_latin1 (word (Hangman_init 5 (py "Apa") None)))
      with [97%N; 112%N; 97%N].
    rewrite !elem_of_cons, elem_of_nil in Hc.
    destruct Hc as [->|[->|[]]]; (split; [|reflexivity]);
      rewrite !elem_of_cons; tauto.
  - intros x Hx. right.
    change (lower_latin1 (word (Hangman_init 5 (py "Apa") None)))
      with [97%N; 112%N; 97%N] in Hx.
    rewrite !elem_of_cons, elem_of_nil in *. tauto.
Defined.

Lemma Hangman_wrong_letters_lose_witness :
  exists w',
    run_io lower_latin1 (HangmanGame (Hangman_init 2 (py "Apa") None))
      (map (fun c => [c]) [120%N; 121%N]) (World_init (fun _ => 0%nat))
    = Ok ((FinishedGame (not_found_message (py "Apa")), []), w').
Proof.
  apply (Hangman_wrong_letters_lose lower_latin1 [120%N; 121%N]
           (Hangman_init 2 (py "Apa") None) (World_init (fun _ => 0%nat)) ∅).
  - reflexivity.
  - discriminate.
  - reflexivity.
  - apply (bool_decide_unpack _). by vm_compute.
  - intros c Hc.
    change (lower_latin1 (word (Hangman_init 2 (py "Apa") None)))
      with [97%N; 112%N; 97%N].
    rewrite !elem_of_cons, elem_of_nil in Hc.
    destruct Hc as [->|[->|[]]];
      (split; [|split; [apply not_elem_of_empty | reflexivity]]);
      rewrite !elem_of_cons, elem_of_nil; intros [?|[?|[?|[]]]]; discriminate.
  - exists 97%N.
    change (lower_latin1 (word (Hangman_init 2 (py "Apa") None)))
      with [97%N; 112%N; 97%N].
    split; [by left | apply not_elem_of_empty].
Defined.
